(** * go-vite: quota engine, VM storage facade and DEX fund contract

    A shallow embedding of
      - [vm/quota/quota.go]   (gas cost of data, quota accounting, CalcQuotaV2
                               and the section-table lookup),
      - [vm_db]               (GetValue / SetValue / DeleteValue over the
                               unsaved overlay),
      - the DEX fund contract exercised by [TestDexFund],
      - [rpcapi/api/filters/subscribe.go] (the filters of the subscription
                               API and the conversion of their parameters),
      - [vite/net/receiver.go] (the receiver of blocks from the network),
    together with the properties the specification states about them and
    further properties of the code.

    Conventions.  A [uint64] is a [Z] in [0, 2^64) and every arithmetic
    operation writes its wrap-around out.  A [*big.Int] is a [Z].  A
    [*big.Float] is the rational it denotes (a [Q]); rounding to the float's
    precision is a parameter of the embedding.  A nil pointer is [None], and
    dereferencing it is the outcome [Panics]. *)

From Stdlib Require Import ZArith QArith List Lia Lqa Bool.
From stdpp Require Import base option countable strings gmap.

#[local] Open Scope Z_scope.

(* ================================================================== *)
(** ** Bytes *)

Abbreviation byte := Byte.byte.
Abbreviation bytes := (list Byte.byte).

#[global] Instance byte_eq_dec : EqDecision byte := Byte.byte_eq_dec.

#[global] Instance byte_countable : Countable byte :=
  inj_countable Byte.to_N Byte.of_N Byte.of_to_N.

(* ================================================================== *)
(** ** Unsigned 64-bit arithmetic *)

Module U64.

Definition modulus : Z := 2 ^ 64.

(** [helper.MaxUint64] *)
Definition MaxUint64 : Z := modulus - 1.

Definition wrap (z : Z) : Z := z mod modulus.

Definition add (a b : Z) : Z := wrap (a + b).
Definition sub (a b : Z) : Z := wrap (a - b).
Definition mul (a b : Z) : Z := wrap (a * b).

(** Unsigned division; the divisor is a non-zero constant wherever the
    source divides. *)
Definition div (a b : Z) : Z := a / b.

(** [helper.Min] on [uint64]. *)
Definition Min (x y : Z) : Z := if x <? y then x else y.

Definition inRange (z : Z) : Prop := 0 <= z < modulus.

End U64.

(* ================================================================== *)
(** ** Outcomes of a call

    [Returns v] is a normal return, [Panics] a run-time panic (nil
    dereference, index out of range), and [OutOfFuel] says that the bound put
    on an unbounded source loop was reached. *)

Inductive outcome (A : Type) : Type :=
| Returns (v : A)
| Panics
| OutOfFuel.

Arguments Returns {A} v.
Arguments Panics {A}.
Arguments OutOfFuel {A}.

Definition obind {A B} (o : outcome A) (k : A -> outcome B) : outcome B :=
  match o with
  | Returns v => k v
  | Panics => Panics
  | OutOfFuel => OutOfFuel
  end.

(* ================================================================== *)
(** ** Ledger data the quota engine and the contracts read *)

Module Ledger.

(** [types.Hash], [types.Address] and [types.TokenTypeId] are fixed-size
    byte arrays compared by content. *)
Definition Hash := bytes.
Definition Address := bytes.
Definition TokenTypeId := bytes.

Inductive BlockType : Type :=
| BlockTypeSendCreate
| BlockTypeSendCall
| BlockTypeSendReward
| BlockTypeReceive
| BlockTypeReceiveError.

Definition isReceiveError (t : BlockType) : bool :=
  match t with
  | BlockTypeReceiveError => true
  | _ => false
  end.

(** [ledger.AccountBlock], with the fields the embedded code touches. *)
Record AccountBlock : Type := mkAccountBlock
  { BlockType_ : BlockType;
    PrevHash : Hash;
    AccountAddress : Address;
    ToAddress : Address;
    Amount : Z;
    TokenId : TokenTypeId;
    SnapshotHash : Hash;
    Data : bytes;
    Quota : Z;
    Nonce : bytes }.

(** [ledger.SnapshotBlock] *)
Record SnapshotBlock : Type := mkSnapshotBlock
  { SbHash : Hash;
    SbHeight : Z }.

Definition hash_eqb (a b : Hash) : bool := bool_decide (a = b).

End Ledger.

(* ================================================================== *)
(** ** vm/quota/quota.go *)

Module Quota.
Import Ledger.

(** The protocol constants of the package.  They are declared outside
    [quota.go]; the embedding takes them as a record.  [roundFloat] is the
    rounding of a [big.Float] result to [precForFloat] bits. *)
Record Params : Type := mkParams
  { TxGas : Z;
    txContractCreationGas : Z;
    txDataZeroGas : Z;
    txDataNonZeroGas : Z;
    quotaForSection : Z;
    maxQuotaHeightGap : Z;
    sectionList : list Q;
    paramA : Q;
    paramB : Q;
    roundFloat : Q -> Q;
    quotaLimit : Z;
    quotaByPledge : Z;
    quotaForPoW : Z }.

Inductive vmError : Type :=
| ErrOutOfQuota
| errGasUintOverflow
| ErrOther.

Definition vmError_eqb (a b : vmError) : bool :=
  match a, b with
  | ErrOutOfQuota, ErrOutOfQuota
  | errGasUintOverflow, errGasUintOverflow
  | ErrOther, ErrOther => true
  | _, _ => false
  end.

(** [var defaultDifficulty = new(big.Int).SetUint64(0xffffffc000000000)] *)
Definition defaultDifficulty : Z := 0xffffffc000000000.

(** [calcQuotaInSections] builds a float it does not use and returns 0. *)
Definition calcQuotaInSections (pledgeAmount difficulty : Z) : Z := 0.

Section WithParams.
Context (P : Params).

(** The counting loop of [DataGasCost]: [nonZeroByteCount++] for every
    byte that is not zero. *)
Definition countNonZero (data : bytes) : Z :=
  fold_left
    (fun n (byteCode : byte) =>
       if Byte.eqb byteCode Byte.x00 then n else U64.add n 1)
    data 0.

Definition DataGasCost (data : bytes) : Z + vmError :=
  if (0 <? Z.of_nat (length data)) then
    let nonZeroByteCount := countNonZero data in
    if U64.div U64.MaxUint64 (txDataNonZeroGas P) <? nonZeroByteCount then
      inr errGasUintOverflow
    else
      let gas := U64.mul nonZeroByteCount (txDataNonZeroGas P) in
      let zeroByteCount :=
        U64.sub (U64.wrap (Z.of_nat (length data))) nonZeroByteCount in
      if U64.div (U64.sub U64.MaxUint64 gas) (txDataZeroGas P)
         <? zeroByteCount then
        inr errGasUintOverflow
      else
        inl (U64.add gas (U64.mul zeroByteCount (txDataZeroGas P)))
  else inl 0.

Definition IntrinsicGasCost (data : bytes) (isCreate : bool)
  : Z + vmError :=
  let gas := if isCreate then txContractCreationGas P else TxGas P in
  match DataGasCost data with
  | inr _ => inr errGasUintOverflow
  | inl gasData =>
      if U64.sub U64.MaxUint64 gas <? gasData then inr errGasUintOverflow
      else inl (U64.add gas gasData)
  end.

Definition CalcQuotaUsed
  (quotaTotal quotaAddition quotaLeft quotaRefund : Z)
  (err : option vmError) : Z :=
  match err with
  | Some ErrOutOfQuota => U64.sub quotaTotal quotaAddition
  | Some _ =>
      if U64.sub quotaTotal quotaLeft <? quotaAddition then 0
      else U64.sub (U64.sub quotaTotal quotaAddition) quotaLeft
  | None =>
      if U64.sub quotaTotal quotaLeft <? quotaAddition then 0
      else
        U64.sub
          (U64.sub (U64.sub quotaTotal quotaLeft) quotaAddition)
          (U64.Min quotaRefund
             (U64.div
                (U64.sub (U64.sub quotaTotal quotaAddition) quotaLeft) 2))
  end.

Definition UseQuota (quotaLeft cost : Z) : Z + vmError :=
  if quotaLeft <? cost then inr ErrOutOfQuota
  else inl (U64.sub quotaLeft cost).

Definition UseQuotaForData (data : bytes) (quotaLeft : Z) : Z + vmError :=
  match DataGasCost data with
  | inr err => inr err
  | inl cost => UseQuota quotaLeft cost
  end.

Definition IsPoW (nonce : bytes) : bool :=
  (0 <? Z.of_nat (length nonce)).

(** *** The section table *)

(** [sectionList[i]]: an index outside the slice panics. *)
Definition sectionAt (i : Z) : outcome Q :=
  if i <? 0 then Panics
  else match nth_error (sectionList P) (Z.to_nat i) with
       | Some s => Returns s
       | None => Panics
       end.

Definition getExactIndex (x : Q) (index : Z) : outcome Z :=
  obind (sectionAt index) (fun s =>
    match (s ?= x)%Q with
    | Gt => if index =? 0 then Returns index else Returns (index - 1)
    | _ => Returns index
    end).

(** The recursion of the source is not structural; [fuel] bounds its
    depth.  Go's [/] on [int] truncates, hence [Z.quot]. *)
Fixpoint getIndexInSectionRange (fuel : nat) (x : Q) (left right : Z)
  : outcome Z :=
  match fuel with
  | O => OutOfFuel
  | S fuel' =>
      if left =? right then getExactIndex x left
      else
        let mid := Z.quot (left + right + 1) 2 in
        obind (sectionAt mid) (fun s =>
          match (s ?= x)%Q with
          | Eq => Returns mid
          | Gt => getIndexInSectionRange fuel' x left (mid - 1)
          | Lt => getIndexInSectionRange fuel' x mid right
          end)
  end.

(** [len(sectionList)] calls are enough for the range [0, len-1]; one
    more lets the empty table reach its panic. *)
Definition getIndexInSection (x : Q) : outcome Z :=
  getIndexInSectionRange (S (length (sectionList P))) x 0
    (Z.of_nat (length (sectionList P)) - 1).

(** *** CalcQuotaV2 *)

(** [quotaDb]: the ledger queries [CalcQuotaV2] makes.  A method that
    returns a pointer returns [None] for nil.
    [contracts.GetPledgeBeneficialAmount(db, addr)] reads the pledge
    contract's storage through the same database. *)
Record quotaDb : Type := mkQuotaDb
  { GetAccountBlockByHash : Hash -> option AccountBlock;
    CurrentSnapshotBlock : option SnapshotBlock;
    PrevAccountBlock : option AccountBlock;
    GetSnapshotBlockByHash : Hash -> option SnapshotBlock;
    GetPledgeBeneficialAmount : Address -> Z }.

(** The [big.Float] operations used, each rounding its exact result. *)
Definition floatSetUint64 (v : Z) : Q := roundFloat P (inject_Z v).
Definition floatSetInt (v : Z) : Q := roundFloat P (inject_Z v).
Definition floatMul (a b : Q) : Q := roundFloat P (a * b)%Q.
Definition floatAdd (a b : Q) : Q := roundFloat P (a + b)%Q.

(** [uint64(getIndexInSection(x)) * quotaForSection] *)
Definition quotaOfSection (x : Q) : outcome Z :=
  obind (getIndexInSection x) (fun i =>
    Returns (U64.mul (U64.wrap i) (quotaForSection P))).

(** The [else] branch of the loop: the walk has left the blocks that
    refer to the current snapshot. *)
Definition calcQuotaV2Exit (db : quotaDb) (pledgeAmount : Z)
  (isPoW : bool) (prevBlock : option AccountBlock) (quotaUsed : Z)
  (difficultyForCalc : Z) : outcome (Z * Z) :=
  let x0 : Q := 0%Q in
  obind
    (match prevBlock with
     | None => Returns (x0, 0)
     | Some pb =>
         if Z.sgn pledgeAmount =? 0 then Returns (x0, 0)
         else
           match CurrentSnapshotBlock db,
                 GetSnapshotBlockByHash db (SnapshotHash pb) with
           | Some cur, Some old =>
               let tmp1 :=
                 floatSetUint64
                   (U64.Min (maxQuotaHeightGap P)
                      (U64.sub (SbHeight cur) (SbHeight old))) in
               let x1 := floatMul tmp1 (paramA P) in
               let tmp2 := floatSetInt pledgeAmount in
               let x2 := floatMul tmp2 x1 in
               obind (quotaOfSection x2) (fun q => Returns (x2, q))
           | _, _ => Panics
           end
     end)
    (fun '(x, quotaWithoutPoW) =>
       obind
         (if isPoW then
            let tmp3 := floatSetInt difficultyForCalc in
            let tmp4 := floatMul tmp3 (paramB P) in
            quotaOfSection (floatAdd x tmp4)
          else Returns quotaWithoutPoW)
         (fun quotaTotal =>
            if quotaTotal <? quotaUsed then Returns (0, 0)
            else
              Returns (U64.sub quotaTotal quotaUsed,
                       U64.sub quotaTotal quotaWithoutPoW))).

(** The [for] loop.  [fuel] bounds the number of blocks visited; the
    source loops for as long as the chain of previous blocks stays on the
    current snapshot. *)
Fixpoint calcQuotaV2Loop (fuel : nat) (db : quotaDb) (pledgeAmount : Z)
  (isPoW : bool) (currentSnapshotHash : Hash)
  (prevBlock : option AccountBlock) (quotaUsed : Z) (flag : bool)
  (difficultyForCalc : Z) : outcome (Z * Z) :=
  match fuel with
  | O => OutOfFuel
  | S fuel' =>
      match prevBlock with
      | Some pb =>
          if hash_eqb currentSnapshotHash (SnapshotHash pb) then
            let flag := IsPoW (Nonce pb) in
            if isReceiveError (BlockType_ pb) then Returns (0, 0)
            else if IsPoW (Nonce pb) then
              if flag then Returns (0, 0)
              else
                calcQuotaV2Loop fuel' db pledgeAmount isPoW
                  currentSnapshotHash
                  (GetAccountBlockByHash db (PrevHash pb))
                  (U64.add quotaUsed (Quota pb)) true defaultDifficulty
            else
              calcQuotaV2Loop fuel' db pledgeAmount isPoW
                currentSnapshotHash
                (GetAccountBlockByHash db (PrevHash pb))
                (U64.add quotaUsed (Quota pb)) flag difficultyForCalc
          else
            calcQuotaV2Exit db pledgeAmount isPoW prevBlock quotaUsed
              difficultyForCalc
      | None =>
          calcQuotaV2Exit db pledgeAmount isPoW prevBlock quotaUsed
            difficultyForCalc
      end
  end.

Definition CalcQuotaV2 (fuel : nat) (db : quotaDb) (addr : Address)
  (difficulty : Z) : outcome (Z * Z) :=
  let pledgeAmount := GetPledgeBeneficialAmount db addr in
  let isPoW := 0 <? Z.sgn difficulty in
  match CurrentSnapshotBlock db with
  | None => Panics
  | Some cur =>
      calcQuotaV2Loop fuel db pledgeAmount isPoW (SbHash cur)
        (PrevAccountBlock db) 0 false difficulty
  end.

Definition CalcQuota (fuel : nat) (db : quotaDb) (addr : Address)
  (pow : bool) : outcome (Z * Z) :=
  if pow then CalcQuotaV2 fuel db addr defaultDifficulty
  else CalcQuotaV2 fuel db addr 0.

Definition GetPledgeQuota (fuel : nat) (db : quotaDb)
  (beneficial : Address) : outcome Z :=
  obind (CalcQuota fuel db beneficial false) (fun r => Returns (fst r)).

(** *** CalcQuotaV1 *)

(** [new(big.Int).Div(x, y)]: Euclidean division; a zero divisor panics. *)
Definition bigDiv (x y : Z) : outcome Z :=
  if y =? 0 then Panics else Returns (Z.sgn y * (x / Z.abs y)).

(** The [else] branch of the loop of [CalcQuotaV1].  [BitLen() > 64] says
    that the magnitude does not fit a [uint64]; [Uint64()] is the magnitude
    when it fits. *)
Definition calcQuotaV1Exit (db : quotaDb) (quotaInitBig quotaAddition : Z)
  (prevBlock : option AccountBlock) (quotaUsed : Z) : outcome (Z * Z) :=
  obind
    (match prevBlock with
     | None => Returns (quotaInitBig * 1)
     | Some pb =>
         match CurrentSnapshotBlock db,
               GetSnapshotBlockByHash db (SnapshotHash pb) with
         | Some cur, Some old =>
             Returns
               (quotaInitBig
                * U64.Min (maxQuotaHeightGap P)
                    (U64.sub (SbHeight cur) (SbHeight old)))
         | _, _ => Panics
         end
     end)
    (fun quotaInitBig' =>
       let quotaLimitForAccount := quotaLimit P in
       let quotaTotal :=
         if U64.modulus <=? Z.abs quotaInitBig' then quotaLimitForAccount
         else U64.Min (Z.abs quotaInitBig') quotaLimitForAccount in
       if quotaTotal <? quotaUsed then Returns (0, 0)
       else
         let quotaTotal := U64.sub quotaTotal quotaUsed in
         if U64.sub quotaLimitForAccount quotaAddition <? quotaTotal then
           Returns (quotaLimitForAccount,
                    U64.sub quotaLimitForAccount quotaTotal)
         else Returns (U64.add quotaTotal quotaAddition, quotaAddition)).

Fixpoint calcQuotaV1Loop (fuel : nat) (db : quotaDb) (pow : bool)
  (currentSnapshotHash : Hash) (prevBlock : option AccountBlock)
  (quotaUsed quotaInitBig quotaAddition : Z) : outcome (Z * Z) :=
  match fuel with
  | O => OutOfFuel
  | S fuel' =>
      match prevBlock with
      | Some pb =>
          if hash_eqb currentSnapshotHash (SnapshotHash pb) then
            if isReceiveError (BlockType_ pb)
               || ((0 <? Z.of_nat (length (Nonce pb))) && pow)
            then Returns (0, 0)
            else
              calcQuotaV1Loop fuel' db pow currentSnapshotHash
                (GetAccountBlockByHash db (PrevHash pb))
                (U64.add quotaUsed (Quota pb)) quotaInitBig quotaAddition
          else
            calcQuotaV1Exit db quotaInitBig quotaAddition prevBlock quotaUsed
      | None =>
          calcQuotaV1Exit db quotaInitBig quotaAddition prevBlock quotaUsed
      end
  end.

Definition CalcQuotaV1 (fuel : nat) (db : quotaDb) (addr : Address)
  (pow : bool) : outcome (Z * Z) :=
  obind (bigDiv (GetPledgeBeneficialAmount db addr) (quotaByPledge P))
    (fun quotaInitBig =>
       let quotaAddition := if pow then quotaForPoW P else 0 in
       match CurrentSnapshotBlock db with
       | None => Panics
       | Some cur =>
           calcQuotaV1Loop fuel db pow (SbHash cur) (PrevAccountBlock db) 0
             quotaInitBig quotaAddition
       end).

(** *** Vocabulary of the properties *)

Definition nonZeroCount (data : bytes) : Z :=
  Z.of_nat (length (List.filter
                      (fun b => negb (Byte.eqb b Byte.x00)) data)).

Definition zeroCount (data : bytes) : Z :=
  Z.of_nat (length (List.filter (fun b => Byte.eqb b Byte.x00) data)).

(** The cost of a payload over the integers. *)
Definition dataCost (data : bytes) : Z :=
  nonZeroCount data * txDataNonZeroGas P
  + zeroCount data * txDataZeroGas P.

Definition baseGas (isCreate : bool) : Z :=
  if isCreate then txContractCreationGas P else TxGas P.

(** The gas constants are [uint64] values, a non-zero byte costs more
    than a zero byte, and the zero-byte cost is not zero. *)
Definition GasParamsOk : Prop :=
  0 < txDataZeroGas P
  /\ txDataZeroGas P < txDataNonZeroGas P
  /\ txDataNonZeroGas P <= U64.MaxUint64
  /\ U64.inRange (TxGas P)
  /\ U64.inRange (txContractCreationGas P).

(** The length of a Go slice is an [int]. *)
Definition maxSliceLen : Z := 2 ^ 63 - 1.

Definition sectionNth (i : nat) : Q := nth i (sectionList P) 0%Q.

Definition sectionCount : Z := Z.of_nat (length (sectionList P)).

(** The table is strictly monotone increasing. *)
Definition strictlyIncreasing : Prop :=
  forall i j : nat,
    (i < j)%nat -> (j < length (sectionList P))%nat ->
    (sectionNth i < sectionNth j)%Q.

(** [i] is the largest index whose section is at most [x]. *)
Definition largestIndexBelow (x : Q) (i : Z) : Prop :=
  0 <= i < sectionCount
  /\ (sectionNth (Z.to_nat i) <= x)%Q
  /\ forall j : Z, i < j < sectionCount ->
                  (x < sectionNth (Z.to_nat j))%Q.

(** The largest quantum the table can yield. *)
Definition quotaCeiling : Z := (sectionCount - 1) * quotaForSection P.


(** The blocks the loop of [CalcQuotaV2] walks through: the previous
    blocks, newest first, for as long as they refer to the snapshot
    [cur]; and the block (or nil) at which the walk stops. *)
Fixpoint sameSnapshotRun (fuel : nat) (db : quotaDb) (cur : Hash)
  (b : option AccountBlock)
  : option (list AccountBlock * option AccountBlock) :=
  match fuel with
  | O => None
  | S fuel' =>
      match b with
      | Some pb =>
          if hash_eqb cur (SnapshotHash pb) then
            match sameSnapshotRun fuel' db cur
                    (GetAccountBlockByHash db (PrevHash pb)) with
            | Some (run, stop) => Some (pb :: run, stop)
            | None => None
            end
          else Some ([], b)
      | None => Some ([], None)
      end
  end.

(** The quota fields of a run, added up as the loop does. *)
Definition addQuota (used : Z) (pb : AccountBlock) : Z :=
  U64.add used (Quota pb).

Definition quotaUsedBy (run : list AccountBlock) : Z :=
  fold_left addQuota run 0.

(** A block at which the loop returns [(0, 0)]. *)
Definition quickFails (pb : AccountBlock) : bool :=
  isReceiveError (BlockType_ pb) || IsPoW (Nonce pb).

(** The loop with the quick-fail rules in the words of the
    specification, for comparison with [calcQuotaV2Loop]: a receive-error
    block zeroes the call; a block with a PoW nonce zeroes the call only
    when the call itself claims PoW quota; otherwise the block's quota is
    added to the quota used. *)
Fixpoint calcQuotaV2Loop_asSpecified (fuel : nat) (db : quotaDb)
  (pledgeAmount : Z) (isPoW : bool) (currentSnapshotHash : Hash)
  (prevBlock : option AccountBlock) (quotaUsed : Z)
  (difficultyForCalc : Z) : outcome (Z * Z) :=
  match fuel with
  | O => OutOfFuel
  | S fuel' =>
      match prevBlock with
      | Some pb =>
          if hash_eqb currentSnapshotHash (SnapshotHash pb) then
            if isReceiveError (BlockType_ pb) then Returns (0, 0)
            else if IsPoW (Nonce pb) && isPoW then Returns (0, 0)
            else
              calcQuotaV2Loop_asSpecified fuel' db pledgeAmount isPoW
                currentSnapshotHash
                (GetAccountBlockByHash db (PrevHash pb))
                (U64.add quotaUsed (Quota pb)) difficultyForCalc
          else
            calcQuotaV2Exit db pledgeAmount isPoW prevBlock quotaUsed
              difficultyForCalc
      | None =>
          calcQuotaV2Exit db pledgeAmount isPoW prevBlock quotaUsed
            difficultyForCalc
      end
  end.

Definition CalcQuotaV2_asSpecified (fuel : nat) (db : quotaDb)
  (addr : Address) (difficulty : Z) : outcome (Z * Z) :=
  let pledgeAmount := GetPledgeBeneficialAmount db addr in
  let isPoW := 0 <? Z.sgn difficulty in
  match CurrentSnapshotBlock db with
  | None => Panics
  | Some cur =>
      calcQuotaV2Loop_asSpecified fuel db pledgeAmount isPoW (SbHash cur)
        (PrevAccountBlock db) 0 difficulty
  end.

End WithParams.

(** *** A small ledger on which the quick-fail rules can be run *)

Module Example.

(** A table of three sections, exact arithmetic. *)
Definition params : Params :=
  mkParams 21000 53000 4 68 21000 86400
    [0%Q; 5%Q; 20%Q] 1%Q (1 # 1000000000000000000)%Q (fun q => q)
    1000000 1 21000.


(** Constants under which two non-zero bytes overflow. *)
Definition steepParams : Params :=
  mkParams 21000 53000 4 (2 ^ 63) 21000 86400 [0%Q] 1%Q 1%Q (fun q => q)
    1000000 1 21000.

Definition snapshot9 : SnapshotBlock := mkSnapshotBlock [Byte.x09] 9.
Definition snapshot10 : SnapshotBlock := mkSnapshotBlock [Byte.x0a] 10.

Definition account : Address := [Byte.xaa].

(** The older block refers to snapshot 9. *)
Definition block1 : AccountBlock :=
  mkAccountBlock BlockTypeSendCall [] account [] 0 [] [Byte.x09] []
    21000 [].

(** The newer block refers to snapshot 10 and carries a PoW nonce. *)
Definition block2 : AccountBlock :=
  mkAccountBlock BlockTypeSendCall [Byte.x01] account [] 0 []
    [Byte.x0a] [] 0 [Byte.x2a].

(** The same block without a nonce, with quota 100. *)
Definition block2plain : AccountBlock :=
  mkAccountBlock BlockTypeSendCall [Byte.x01] account [] 0 []
    [Byte.x0a] [] 100 [].

(** The same block as a receive-error block. *)
Definition block2error : AccountBlock :=
  mkAccountBlock BlockTypeReceiveError [Byte.x01] account [] 0 []
    [Byte.x0a] [] 100 [].

(** The account has pledge 7; its newest block is [head], on top of
    [block1]; the current snapshot is snapshot 10. *)
Definition ledger (head : AccountBlock) : quotaDb :=
  mkQuotaDb
    (fun h => if hash_eqb h [Byte.x01] then Some block1 else None)
    (Some snapshot10)
    (Some head)
    (fun h => if hash_eqb h [Byte.x09] then Some snapshot9
              else if hash_eqb h [Byte.x0a] then Some snapshot10
              else None)
    (fun _ => 7).

(** The same chain of blocks for an account without pledge. *)
Definition unpledged (head : AccountBlock) : quotaDb :=
  mkQuotaDb
    (fun h => if hash_eqb h [Byte.x01] then Some block1 else None)
    (Some snapshot10)
    (Some head)
    (fun h => if hash_eqb h [Byte.x09] then Some snapshot9
              else if hash_eqb h [Byte.x0a] then Some snapshot10
              else None)
    (fun _ => 0).

(** An account without blocks and without pledge. *)
Definition emptyLedger : quotaDb :=
  mkQuotaDb (fun _ => None) (Some snapshot10) None
    (fun h => if hash_eqb h [Byte.x0a] then Some snapshot10 else None)
    (fun _ => 0).

End Example.

End Quota.

(* ================================================================== *)
(** ** vm_db: the storage facade *)

Module VmDb.

Inductive dbError : Type :=
| ErrSnapshotUnavailable
| ErrSnapshotRead.

(** Modelled from the spec: the type of [db.unsaved] is declared outside
    the embedded file.  The unsaved overlay is a finite map from keys to
    the bytes last written under them; [GetValue] reports whether the key
    was written ([ok]) together with the value. *)
Record Unsaved : Type := mkUnsaved
  { storage : gmap bytes bytes }.

Definition Unsaved_GetValue (u : Unsaved) (key : bytes) : option bytes :=
  storage u !! key.

Definition Unsaved_SetValue (u : Unsaved) (key value : bytes) : Unsaved :=
  mkUnsaved (<[key := value]> (storage u)).

(** Modelled from the spec: the committed snapshot answers [GetValue] with
    the stored bytes or an error; its type is declared outside the embedded
    file. *)
Record StateSnapshot : Type := mkStateSnapshot
  { Snapshot_GetValue : bytes -> bytes + dbError }.

(** [vmDb], with [getPrevStateSnapshot] as the result it yields. *)
Record vmDb : Type := mkVmDb
  { unsaved : Unsaved;
    getPrevStateSnapshot : StateSnapshot + dbError }.

Definition GetOriginalValue (db : vmDb) (key : bytes) : bytes + dbError :=
  match getPrevStateSnapshot db with
  | inr err => inr err
  | inl prevStateSnapshot => Snapshot_GetValue prevStateSnapshot key
  end.

Definition GetValue (db : vmDb) (key : bytes) : bytes + dbError :=
  match Unsaved_GetValue (unsaved db) key with
  | Some value => inl value
  | None => GetOriginalValue db key
  end.

Definition SetValue (db : vmDb) (key value : bytes) : vmDb :=
  mkVmDb (Unsaved_SetValue (unsaved db) key value) (getPrevStateSnapshot db).

Definition DeleteValue (db : vmDb) (key : bytes) : vmDb :=
  mkVmDb (Unsaved_SetValue (unsaved db) key []) (getPrevStateSnapshot db).

End VmDb.

(* ================================================================== *)
(** ** The DEX fund contract

    [TestDexFund] drives [contracts.MethodDexFundUserDeposit],
    [MethodDexFundUserWithdraw], [MethodDexFundNewOrder] and
    [MethodDexFundSettleOrders]; their bodies are in package [contracts],
    outside the embedded files, and are modelled from the specification
    (sections 3, 4.A, 4.C, 4.D and 6). *)

Module Dex.
Import Ledger.

(** Modelled from the spec: the error kinds of section 7 the fund contract
    returns; the error values of package [contracts] are declared outside
    the embedded files. *)
Inductive DexError : Type :=
| TokenInvalid
| MethodNotFound
| InvalidArgument
| Unauthorized
| InsufficientFunds
| ConsistencyViolation.

(** Go's [(value, error)] results: [inl] is the value. *)
Definition bindE {A B} (r : A + DexError) (k : A -> B + DexError)
  : B + DexError :=
  match r with
  | inl a => k a
  | inr e => inr e
  end.

Notation "'let*' x ':=' r 'in' k" := (bindE r (fun x => k))
  (at level 10, x pattern, r at level 100, k at level 200).

(** *** Data model (spec section 3) *)

(** Modelled from the spec: the numeric fields of the fund record, of the
    order and of the settle action are unsigned 64-bit numbers (section
    4.C: all numeric fields are unsigned; section 6: [uint64] and [u64] in
    the schemas; the test compares them with [uint64] values).  A field is
    carried as a [Z], and a record is taken from storage or from a payload
    only when every such field passes this test. *)
Definition isUint64 (z : Z) : bool := (0 <=? z) && (z <? U64.modulus).


(** Modelled from the spec: [dexproto.Account], declared outside the
    embedded files: an entry of a fund, with the fields the test reads.
    [Available] and [Locked] are [uint64] (see [accountOk]). *)
Record Account : Type := mkAccount
  { Asset : TokenTypeId;
    Available : Z;
    Locked : Z }.

(** Modelled from the spec: the balances of an entry are [uint64]
    (section 6, fund record schema). *)
Definition accountOk (a : Account) : bool :=
  isUint64 (Available a) && isUint64 (Locked a).

(** Modelled from the spec: [dexproto.Fund], declared outside the embedded
    files: the list [Accounts]. *)
Definition Fund := list Account.

Definition fundOk (f : Fund) : bool := forallb accountOk f.

(** Modelled from the spec: the order types and statuses of package [dex],
    declared outside the embedded files. *)
Inductive OrderType : Type := Limited | Market.

Inductive OrderStatus : Type :=
| Pending
| PartiallyExecuted
| FullyExecuted
| Cancelled.

(** Modelled from the spec: [dexproto.Order], declared outside the embedded
    files, with the fields the test writes.  [Side = true] is a sell order.
    [Price] is the fixed-point price scaled by [priceScale].  [Id],
    [Price], [Quantity] and [OAmount] are [uint64], [Timestamp] is an
    [int64] (see [orderOk]). *)
Record Order : Type := mkOrder
  { Id : Z;
    OAddress : Address;
    TradeAsset : TokenTypeId;
    QuoteAsset : TokenTypeId;
    Side : bool;
    Type_ : OrderType;
    Price : Z;
    Quantity : Z;
    OAmount : Z;
    Status : OrderStatus;
    Timestamp : Z }.



(** Modelled from the spec: [dexproto.SettleAction], declared outside the
    embedded files, with the fields the test writes.  The four deltas are
    [u64] (see [settleActionOk]). *)
Record SettleAction : Type := mkSettleAction
  { SAddress : Address;
    SAsset : TokenTypeId;
    IncAvailable : Z;
    DeduceAvailable : Z;
    IncLocked : Z;
    DeduceLocked : Z }.

(** Modelled from the spec: [dexproto.SettleOrders], declared outside the
    embedded files: the list [Actions]. *)
Definition SettleOrders := list SettleAction.

(** Modelled from the spec: the deltas of a settle action are [u64]
    (section 6, SettleOrders schema). *)
Definition settleActionOk (a : SettleAction) : bool :=
  isUint64 (IncAvailable a) && isUint64 (DeduceAvailable a)
  && isUint64 (IncLocked a) && isUint64 (DeduceLocked a).

(** Modelled from the spec: the four methods of [ABIDexFund] with their
    arguments, as [UnpackMethod] yields them. *)
Inductive MethodCall : Type :=
| CallUserDeposit (beneficiary : Address) (asset : TokenTypeId) (amount : Z)
| CallUserWithdraw (beneficiary : Address) (asset : TokenTypeId) (amount : Z)
| CallNewOrder (data : bytes)
| CallSettleOrders (data : bytes).

(** *** Serialization layer (spec section 4.C) and runtime constants *)

(** Modelled from the spec: the ABI codec, the record codec and the
    well-known contract addresses are declared outside the embedded files.
    The contract is written against this interface. *)
Class Runtime : Type := mkRuntime
  { AddressDexFund : Address;
    AddressDexTrade : Address;
    AddressMintage : Address;
    PackMethod : MethodCall -> bytes;
    UnpackMethod : bytes -> option MethodCall;
    encodeOrder : Order -> bytes;
    decodeOrder : bytes -> option Order;
    encodeSettleOrders : SettleOrders -> bytes;
    decodeSettleOrders : bytes -> option SettleOrders;
    encodeFund : Fund -> bytes;
    decodeFund : bytes -> option Fund }.

(** Modelled from the spec: the round trips of the codecs (section 8,
    property 6); storage never written decodes to the fund without
    entries. *)
Record RuntimeLaws (R : Runtime) : Prop := mkRuntimeLaws
  { unpack_pack : forall c, UnpackMethod (PackMethod c) = Some c;
    decode_encode_order : forall o, decodeOrder (encodeOrder o) = Some o;
    decode_encode_settle :
      forall s, decodeSettleOrders (encodeSettleOrders s) = Some s;
    decode_encode_fund : forall f, decodeFund (encodeFund f) = Some f;
    decode_no_fund : decodeFund [] = Some [] }.

Section Contract.
Context {R : Runtime}.

(** *** Records as the contract reads them *)


(** Modelled from the spec: an envelope is read from a payload when the
    payload decodes and every delta of every action is a [u64]. *)
Definition readSettleOrders (data : bytes) : option SettleOrders :=
  match decodeSettleOrders data with
  | Some actions =>
      if forallb settleActionOk actions then Some actions else None
  | None => None
  end.

(** *** State store (spec section 4.A) and the test database *)

(** Modelled from the spec: [testDatabase] is declared outside the embedded
    files; these are the fields [TestDexFund] reads and writes. *)
Record testDatabase : Type := mkTestDatabase
  { balanceMap : gmap Address (gmap TokenTypeId Z);
    storageMap : gmap Address (gmap bytes bytes) }.

(** Modelled from the spec: [NewNoDatabase] is declared outside the
    embedded files; a fresh database holds nothing. *)
Definition initDatabase : testDatabase := mkTestDatabase ∅ ∅.

(** Modelled from the spec: [get(key)] per contract address; an absent
    key reads as no bytes. *)
Definition GetStorage (db : testDatabase) (addr : Address) (key : bytes)
  : bytes :=
  match storageMap db !! addr with
  | Some m => default [] (m !! key)
  | None => []
  end.

(** Modelled from the spec: [set(key, bytes)] per contract address. *)
Definition SetStorage (db : testDatabase) (addr : Address)
  (key value : bytes) : testDatabase :=
  mkTestDatabase (balanceMap db)
    (<[addr := <[key := value]> (default ∅ (storageMap db !! addr))]>
       (storageMap db)).

(** Modelled from the spec (section 6): mintage record under
    [0x01 || token_tag], fund record under [0x01 || address]. *)
Definition GetMintageKey (token : TokenTypeId) : bytes :=
  Byte.x01 :: token.
Definition GetFundKey (address : Address) : bytes := Byte.x01 :: address.

(** [depositCash] of the test file. *)
Definition depositCash (db : testDatabase) (address : Address)
  (amount : Z) (asset : TokenTypeId) : testDatabase :=
  mkTestDatabase
    (<[address := <[asset := amount]>
                    (default ∅ (balanceMap db !! address))]>
       (balanceMap db))
    (storageMap db).

(** Modelled from the spec: [ABIMintage.PackVariable] is declared outside
    the embedded files; its output is a non-empty record that starts with
    the token name and symbol. *)
Definition PackVariableMintage (token : TokenTypeId) : bytes :=
  firstn 4 token ++ skipn 5 token ++ [Byte.x12].

(** [registerToken] of the test file. *)
Definition registerToken (db : testDatabase) (token : TokenTypeId)
  : testDatabase :=
  SetStorage db AddressMintage (GetMintageKey token)
    (PackVariableMintage token).

(** Modelled from the spec: a tag is valid iff the registry contains a
    mintage record. *)
Definition IsTokenRegistered (db : testDatabase) (token : TokenTypeId)
  : bool :=
  0 <? Z.of_nat (length (GetStorage db AddressMintage
                           (GetMintageKey token))).

(** *** Fund records *)

(** Modelled from the spec: the fund of a user is the decoded value under
    its key, with [uint64] balances; no bytes decode to the fund without
    entries (see [decode_no_fund]). *)
Definition GetFundFromStorage (db : testDatabase) (address : Address)
  : Fund + DexError :=
  match decodeFund (GetStorage db AddressDexFund (GetFundKey address)) with
  | Some f => if fundOk f then inl f else inr InvalidArgument
  | None => inr InvalidArgument
  end.

(** Modelled from the spec: the fund of a user is stored encoded under its
    key in the storage of the fund contract. *)
Definition saveFundToStorage (db : testDatabase) (address : Address)
  (f : Fund) : testDatabase :=
  SetStorage db AddressDexFund (GetFundKey address) (encodeFund f).

(** Modelled from the spec: look up the entry of an asset; an asset never
    touched has no balance. *)
Fixpoint getAccount (asset : TokenTypeId) (f : Fund) : Account :=
  match f with
  | [] => mkAccount asset 0 0
  | a :: rest =>
      if bool_decide (Asset a = asset) then a else getAccount asset rest
  end.

(** Modelled from the spec: look up or create the entry of an asset and
    give it new balances. *)
Fixpoint setAccount (asset : TokenTypeId) (available locked : Z)
  (f : Fund) : Fund :=
  match f with
  | [] => [mkAccount asset available locked]
  | a :: rest =>
      if bool_decide (Asset a = asset)
      then mkAccount asset available locked :: rest
      else a :: setAccount asset available locked rest
  end.

(** *** The context of a receive: [vmMockVmCtx] *)

Record vmMockVmCtx : Type := mkCtx
  { appendedBlocks : list AccountBlock }.


Definition GetNewBlockHeight (ctx : vmMockVmCtx) (block : AccountBlock)
  : Z := 100.



Definition asTransfer (b : AccountBlock) (to : Address)
  (token : TokenTypeId) (amount : Z) : AccountBlock :=
  mkAccountBlock (BlockType_ b) (PrevHash b) (AccountAddress b)
    to amount token (SnapshotHash b) (Data b) (Quota b) (Nonce b).

(** *** UserDeposit *)

(** Modelled from the spec: [MethodDexFundUserDeposit.DoSend].  The token
    must be registered; the send block becomes a transfer of [amount] of
    [asset] to the fund contract.  An error yields no block. *)
Definition UserDeposit_DoSend (db : testDatabase) (block : AccountBlock)
  : AccountBlock + DexError :=
  match UnpackMethod (Data block) with
  | Some (CallUserDeposit beneficiary asset amount) =>
      if IsTokenRegistered db asset
      then inl (asTransfer block AddressDexFund asset amount)
      else inr TokenInvalid
  | Some _ => inr MethodNotFound
  | None => inr InvalidArgument
  end.


(** *** UserWithdraw *)



(** *** NewOrder *)







(** *** SettleOrders *)


(** Modelled from the spec: one settle action: look up or create the
    fund and the asset entry, apply the deltas, refuse a negative
    balance, and with it a balance that the [uint64] field cannot hold. *)
Definition settleAction (db : testDatabase) (a : SettleAction)
  : testDatabase + DexError :=
  let* fund := GetFundFromStorage db (SAddress a) in
  let acc := getAccount (SAsset a) fund in
  let available := Available acc + IncAvailable a - DeduceAvailable a in
  let locked := Locked acc + IncLocked a - DeduceLocked a in
  if negb (isUint64 available && isUint64 locked)
  then inr ConsistencyViolation
  else
    inl (saveFundToStorage db (SAddress a)
           (setAccount (SAsset a) available locked fund)).

(** Modelled from the spec: the actions of an envelope, in order; the
    first error ends the fold with that error. *)
Fixpoint settleActions (db : testDatabase) (actions : list SettleAction)
  : testDatabase + DexError :=
  match actions with
  | [] => inl db
  | a :: rest =>
      let* db' := settleAction db a in
      settleActions db' rest
  end.

(** Modelled from the spec: [MethodDexFundSettleOrders.DoReceive]: every
    action of the envelope in order; the first error rejects the whole
    envelope and the database of the caller stays as it was. *)
Definition SettleOrders_DoReceive (db : testDatabase)
  (sendBlock : AccountBlock) : testDatabase + DexError :=
  match UnpackMethod (Data sendBlock) with
  | Some (CallSettleOrders data) =>
      match readSettleOrders data with
      | Some actions => settleActions db actions
      | None => inr InvalidArgument
      end
  | Some _ => inr MethodNotFound
  | None => inr InvalidArgument
  end.

(** *** Vocabulary of the properties *)

(** The fund a user has in storage; storage that does not decode holds no
    fund. *)
Definition fundOf (db : testDatabase) (user : Address) : Fund :=
  match GetFundFromStorage db user with
  | inl f => f
  | inr _ => []
  end.

Definition availableOf (db : testDatabase) (user : Address)
  (asset : TokenTypeId) : Z :=
  Available (getAccount asset (fundOf db user)).

Definition lockedOf (db : testDatabase) (user : Address)
  (asset : TokenTypeId) : Z :=
  Locked (getAccount asset (fundOf db user)).





End Contract.

End Dex.

(* ================================================================== *)
(** ** A concrete runtime for the scenarios of [TestDexFund]

    A small self-delimiting wire format that satisfies the round-trip laws;
    the contract itself depends only on the [Dex.Runtime] interface. *)

Module Wire.
Import Ledger Dex.

Definition parser (A : Type) : Type := bytes -> option (A * bytes).

Definition pbind {A B} (p : parser A) (k : A -> parser B) : parser B :=
  fun l => match p l with
           | Some (a, rest) => k a rest
           | None => None
           end.

Definition pret {A} (a : A) : parser A := fun l => Some (a, l).

(** Binary digits, least significant first, one per byte, closed by 2. *)
Fixpoint putPos (p : positive) : bytes :=
  match p with
  | xH => [Byte.x02]
  | xO p' => Byte.x00 :: putPos p'
  | xI p' => Byte.x01 :: putPos p'
  end.

Fixpoint getPos (l : bytes) : option (positive * bytes) :=
  match l with
  | [] => None
  | b :: rest =>
      if Byte.eqb b Byte.x02 then Some (xH, rest)
      else if Byte.eqb b Byte.x00 then
        match getPos rest with
        | Some (p, rest') => Some (xO p, rest')
        | None => None
        end
      else if Byte.eqb b Byte.x01 then
        match getPos rest with
        | Some (p, rest') => Some (xI p, rest')
        | None => None
        end
      else None
  end.

Definition putZ (z : Z) : bytes :=
  match z with
  | Z0 => [Byte.x00]
  | Zpos p => Byte.x01 :: putPos p
  | Zneg p => Byte.x02 :: putPos p
  end.

Definition getZ : parser Z :=
  fun l =>
    match l with
    | [] => None
    | b :: rest =>
        if Byte.eqb b Byte.x00 then Some (Z0, rest)
        else if Byte.eqb b Byte.x01 then
          match getPos rest with
          | Some (p, rest') => Some (Zpos p, rest')
          | None => None
          end
        else if Byte.eqb b Byte.x02 then
          match getPos rest with
          | Some (p, rest') => Some (Zneg p, rest')
          | None => None
          end
        else None
    end.

Definition putBytes (b : bytes) : bytes :=
  putZ (Z.of_nat (length b)) ++ b.

Definition getBytes : parser bytes :=
  pbind getZ (fun n rest =>
    if (0 <=? n) && (n <=? Z.of_nat (length rest))
    then Some (firstn (Z.to_nat n) rest, skipn (Z.to_nat n) rest)
    else None).

Definition putBool (b : bool) : bytes := putZ (if b then 1 else 0).
Definition getBool : parser bool :=
  pbind getZ (fun n =>
    if n =? 0 then pret false
    else if n =? 1 then pret true
    else fun _ => None).

Fixpoint putMany {A} (put : A -> bytes) (xs : list A) : bytes :=
  match xs with
  | [] => []
  | x :: rest => put x ++ putMany put rest
  end.

Fixpoint getMany {A} (get : parser A) (n : nat) : parser (list A) :=
  match n with
  | O => pret []
  | S n' => pbind get (fun x => pbind (getMany get n') (fun xs =>
              pret (x :: xs)))
  end.

Definition putList {A} (put : A -> bytes) (xs : list A) : bytes :=
  putZ (Z.of_nat (length xs)) ++ putMany put xs.

Definition getList {A} (get : parser A) : parser (list A) :=
  pbind getZ (fun n =>
    if n <? 0 then fun _ => None else getMany get (Z.to_nat n)).

(** A parser must consume its whole input. *)
Definition complete {A} (p : parser A) (l : bytes) : option A :=
  match p l with
  | Some (a, []) => Some a
  | _ => None
  end.

(** Enumerations. *)
Definition putType (t : OrderType) : bytes :=
  putZ (match t with Limited => 0 | Market => 1 end).
Definition getType : parser OrderType :=
  pbind getZ (fun n =>
    if n =? 0 then pret Limited
    else if n =? 1 then pret Market
    else fun _ => None).

Definition putStatus (s : OrderStatus) : bytes :=
  putZ (match s with
        | Pending => 0
        | PartiallyExecuted => 1
        | FullyExecuted => 2
        | Cancelled => 3
        end).
Definition getStatus : parser OrderStatus :=
  pbind getZ (fun n =>
    if n =? 0 then pret Pending
    else if n =? 1 then pret PartiallyExecuted
    else if n =? 2 then pret FullyExecuted
    else if n =? 3 then pret Cancelled
    else fun _ => None).

(** Records. *)
Definition putAccount (a : Account) : bytes :=
  putBytes (Asset a) ++ putZ (Available a) ++ putZ (Locked a).
Definition getAccountRec : parser Account :=
  pbind getBytes (fun asset => pbind getZ (fun av => pbind getZ (fun lk =>
    pret (mkAccount asset av lk)))).

Definition putOrder (o : Order) : bytes :=
  putZ (Id o) ++ putBytes (OAddress o) ++ putBytes (TradeAsset o)
    ++ putBytes (QuoteAsset o) ++ putBool (Side o) ++ putType (Type_ o)
    ++ putZ (Price o) ++ putZ (Quantity o) ++ putZ (OAmount o)
    ++ putStatus (Status o) ++ putZ (Timestamp o).
Definition getOrder : parser Order :=
  pbind getZ (fun id => pbind getBytes (fun addr =>
  pbind getBytes (fun ta => pbind getBytes (fun qa =>
  pbind getBool (fun side => pbind getType (fun ty =>
  pbind getZ (fun price => pbind getZ (fun qty => pbind getZ (fun amt =>
  pbind getStatus (fun st => pbind getZ (fun ts =>
    pret (mkOrder id addr ta qa side ty price qty amt st ts)))))))))))).

Definition putSettleAction (a : SettleAction) : bytes :=
  putBytes (SAddress a) ++ putBytes (SAsset a) ++ putZ (IncAvailable a)
    ++ putZ (DeduceAvailable a) ++ putZ (IncLocked a)
    ++ putZ (DeduceLocked a).
Definition getSettleAction : parser SettleAction :=
  pbind getBytes (fun addr => pbind getBytes (fun asset =>
  pbind getZ (fun ia => pbind getZ (fun da => pbind getZ (fun il =>
  pbind getZ (fun dl =>
    pret (mkSettleAction addr asset ia da il dl))))))).

(** Method calls: a one-number method id, then the arguments. *)
Definition putCall (c : MethodCall) : bytes :=
  match c with
  | CallUserDeposit b a n => putZ 1 ++ putBytes b ++ putBytes a ++ putZ n
  | CallUserWithdraw b a n => putZ 2 ++ putBytes b ++ putBytes a ++ putZ n
  | CallNewOrder d => putZ 3 ++ putBytes d
  | CallSettleOrders d => putZ 4 ++ putBytes d
  end.
Definition getCall : parser MethodCall :=
  pbind getZ (fun id =>
    if id =? 1 then
      pbind getBytes (fun b => pbind getBytes (fun a => pbind getZ (fun n =>
        pret (CallUserDeposit b a n))))
    else if id =? 2 then
      pbind getBytes (fun b => pbind getBytes (fun a => pbind getZ (fun n =>
        pret (CallUserWithdraw b a n))))
    else if id =? 3 then pbind getBytes (fun d => pret (CallNewOrder d))
    else if id =? 4 then pbind getBytes (fun d => pret (CallSettleOrders d))
    else fun _ => None).

(** A fund record; a key never written holds no bytes and reads as the
    fund without entries. *)
Definition getFund (l : bytes) : option Fund :=
  match l with
  | [] => Some []
  | _ => complete (getList getAccountRec) l
  end.

Definition ascii_bytes (s : String.string) : bytes :=
  String.list_byte_of_string s.

#[global] Instance testRuntime : Runtime :=
  {| AddressDexFund := ascii_bytes "vite_dex_fund_address"%string;
     AddressDexTrade := ascii_bytes "vite_dex_trade_addres"%string;
     AddressMintage := ascii_bytes "vite_mintage_address_"%string;
     PackMethod := putCall;
     UnpackMethod := complete getCall;
     encodeOrder := putOrder;
     decodeOrder := complete getOrder;
     encodeSettleOrders := putList putSettleAction;
     decodeSettleOrders := complete (getList getSettleAction);
     encodeFund := putList putAccount;
     decodeFund := getFund |}.

End Wire.

(* ================================================================== *)
(** ** The run of [TestDexFund] *)

Module Scenario.
Import Ledger Dex Wire.

Definition VITE : TokenTypeId := ascii_bytes "VITE TOKEN"%string.
Definition ETH : TokenTypeId := ascii_bytes "ETH  TOKEN"%string.
Definition NANO : TokenTypeId := ascii_bytes "NANO TOKEN"%string.

Definition userAddress : Address := ascii_bytes "12345678901234567890"%string.

Definition blockFrom (sender : Address) (data : bytes) : AccountBlock :=
  mkAccountBlock BlockTypeSendCall [] sender [] 0 [] [] data 0 [].

(** [TestDexFund], up to the first deposit attempt. *)
Definition db0 : testDatabase :=
  registerToken (depositCash initDatabase userAddress 3000 VITE) VITE.














End Scenario.



(* ================================================================== *)
(** ** Further vocabulary and examples for the quota engine *)

Module QuotaExtra.
Import Ledger Quota.

(** A block at which the loop of [CalcQuotaV1] returns [(0, 0)]. *)
Definition quickFailsV1 (pow : bool) (pb : AccountBlock) : bool :=
  isReceiveError (BlockType_ pb) || (IsPoW (Nonce pb) && pow).

(** The pledge share [CalcQuotaV1] starts from, capped at the limit. *)
Definition pledgeShareV1 (P : Params) (pledgeAmount : Z) : Z :=
  Z.min (pledgeAmount / quotaByPledge P) (quotaLimit P).

(** A table without sections, and a table out of order. *)
Definition emptyTableParams : Params :=
  mkParams 21000 53000 4 68 21000 86400 [] 1%Q 1%Q (fun q => q)
    1000000 1 21000.

Definition unsortedParams : Params :=
  mkParams 21000 53000 4 68 21000 86400 [9%Q; 1%Q; 4%Q] 1%Q 1%Q
    (fun q => q) 1000000 1 21000.

(** An account without blocks and with the given pledge. *)
Definition firstBlockLedger (pledge : Z) : quotaDb :=
  mkQuotaDb (fun _ => None) (Some Example.snapshot10) None
    (fun h => if hash_eqb h [Byte.x0a] then Some Example.snapshot10
              else None)
    (fun _ => pledge).

End QuotaExtra.

(* ================================================================== *)
(** ** vm_db: sequences of writes *)

Module VmDbExtra.
Import VmDb.

(** A run of [SetValue] calls, first to last. *)
Definition applyWrites (db : vmDb) (writes : list (bytes * bytes)) : vmDb :=
  fold_left (fun d w => SetValue d (fst w) (snd w)) writes db.

(** The value the last write to [key] in a run wrote. *)
Definition lastWrite (key : bytes) (writes : list (bytes * bytes))
  : option bytes :=
  fold_left
    (fun found w => if bool_decide (fst w = key) then Some (snd w) else found)
    writes None.

End VmDbExtra.

(* ================================================================== *)
(** ** rpcapi/api/filters/subscribe.go

    The subscription API keeps its filters in a map guarded by a mutex.
    Each function below is one critical section of the source: the state of
    the API goes in and comes out.  [Unsubscribe] acts on the event system,
    outside the file; the calls made are recorded in [unsubscribed]. *)

Module Filters.
Import Ledger.

(** [rpc.ID] is a string. *)
Definition ID := string.

(** [FilterType] is declared outside the file; the file names two of its
    values. *)
Inductive FilterType : Type :=
| AccountBlocksSubscription
| LogsSubscription
| OtherSubscription (tag : Z).

Record AccountBlockMsg : Type := mkAccountBlockMsg
  { MsgHash : Hash;
    MsgRemoved : bool }.

Record ConfirmedAccountBlockMsg : Type := mkConfirmedAccountBlockMsg
  { HashList : list Hash;
    ConfirmedSnapshotHash : Hash;
    ConfirmedRemoved : bool }.

(** [ledger.VmLog] is declared outside the file: topics and data. *)
Record VmLog : Type := mkVmLog
  { Topics : list Hash;
    LogData : bytes }.

Record LogsMsg : Type := mkLogsMsg
  { Log : option VmLog;
    AccountBlockHash : Hash;
    SnapshotBlockHash : option Hash;
    Addr : option Address;
    LogRemoved : bool }.

(** A [time.Timer] of the Go runtime, as far as the file looks at it:
    running, or fired with its tick waiting in the channel [C]. *)
Inductive timer : Type :=
| TimerRunning
| TimerFired.

(** [filter]; the subscription [s] is the one registered under the key of
    the filter, and [param] is never written. *)
Record filter : Type := mkFilter
  { typ : FilterType;
    deadline : timer;
    blocks : list AccountBlockMsg;
    confirmedBlocks : list ConfirmedAccountBlockMsg;
    logs : list LogsMsg;
    confirmedLogs : list LogsMsg }.

(** [SubscribeApi]: the filter map, and the [Unsubscribe] calls made. *)
Record SubscribeApi : Type := mkSubscribeApi
  { filterMap : gmap ID filter;
    unsubscribed : list ID }.

Inductive apiError : Type :=
| ErrFilterNotFound
| ErrAddrRangeNil
| ErrParse (code : Z).

(** [NewSubscribeApi] *)
Definition NewSubscribeApi : SubscribeApi := mkSubscribeApi ∅ [].

(** The locked section of [NewAccountBlocksFilter] and its three siblings:
    the filter of the new subscription, with a fresh timer. *)
Definition installFilter (s : SubscribeApi) (id : ID) (t : FilterType)
  : SubscribeApi :=
  mkSubscribeApi
    (<[id := mkFilter t TimerRunning [] [] [] []]> (filterMap s))
    (unsubscribed s).

Definition updateFilter (s : SubscribeApi) (id : ID) (f : filter)
  : SubscribeApi :=
  mkSubscribeApi (<[id := f]> (filterMap s)) (unsubscribed s).

(** [case ac := <-acCh] of [NewAccountBlocksFilter]. *)
Definition onAccountBlocks (s : SubscribeApi) (id : ID)
  (ac : list AccountBlockMsg) : SubscribeApi :=
  match filterMap s !! id with
  | Some f =>
      updateFilter s id
        (mkFilter (typ f) (deadline f) (blocks f ++ ac) (confirmedBlocks f)
           (logs f) (confirmedLogs f))
  | None => s
  end.

(** [case ac := <-acCh] of [NewConfirmedAccountBlocksFilter]. *)
Definition onConfirmedAccountBlocks (s : SubscribeApi) (id : ID)
  (ac : list ConfirmedAccountBlockMsg) : SubscribeApi :=
  match filterMap s !! id with
  | Some f =>
      updateFilter s id
        (mkFilter (typ f) (deadline f) (blocks f) (confirmedBlocks f ++ ac)
           (logs f) (confirmedLogs f))
  | None => s
  end.

(** [case l := <-logsCh] of [NewLogsFilter]. *)
Definition onLogs (s : SubscribeApi) (id : ID) (l : list LogsMsg)
  : SubscribeApi :=
  match filterMap s !! id with
  | Some f =>
      updateFilter s id
        (mkFilter (typ f) (deadline f) (blocks f) (confirmedBlocks f)
           (logs f ++ l) (confirmedLogs f))
  | None => s
  end.

(** [case l := <-logsCh] of [NewConfirmedLogsFilter]. *)
Definition onConfirmedLogs (s : SubscribeApi) (id : ID) (l : list LogsMsg)
  : SubscribeApi :=
  match filterMap s !! id with
  | Some f =>
      updateFilter s id
        (mkFilter (typ f) (deadline f) (blocks f) (confirmedBlocks f)
           (logs f) (confirmedLogs f ++ l))
  | None => s
  end.

(** [case <-acSub.Err()]: the filter is dropped. *)
Definition onSubscriptionErr (s : SubscribeApi) (id : ID) : SubscribeApi :=
  mkSubscribeApi (delete id (filterMap s)) (unsubscribed s).

Definition UninstallFilter (s : SubscribeApi) (id : ID)
  : bool * SubscribeApi :=
  match filterMap s !! id with
  | Some f =>
      (true, mkSubscribeApi (delete id (filterMap s)) (unsubscribed s ++ [id]))
  | None => (false, s)
  end.

(** What [GetFilterChanges] hands out. *)
Inductive changes : Type :=
| BlockChanges (l : list AccountBlockMsg)
| LogChanges (l : list LogsMsg).

(** [GetFilterChanges].  [Stop] on a running timer succeeds; on a fired
    timer it fails and the tick is taken from the channel; either way
    [Reset] leaves the timer running. *)
Definition GetFilterChanges (s : SubscribeApi) (id : ID)
  : (changes + apiError) * SubscribeApi :=
  match filterMap s !! id with
  | Some f =>
      match typ f with
      | AccountBlocksSubscription =>
          (inl (BlockChanges (blocks f)),
           updateFilter s id
             (mkFilter (typ f) TimerRunning [] (confirmedBlocks f) (logs f)
                (confirmedLogs f)))
      | LogsSubscription =>
          (inl (LogChanges (logs f)),
           updateFilter s id
             (mkFilter (typ f) TimerRunning (blocks f) (confirmedBlocks f) []
                (confirmedLogs f)))
      | OtherSubscription _ =>
          (inr ErrFilterNotFound,
           updateFilter s id
             (mkFilter (typ f) TimerRunning (blocks f) (confirmedBlocks f)
                (logs f) (confirmedLogs f)))
      end
  | None => (inr ErrFilterNotFound, s)
  end.

Definition fired (f : filter) : bool :=
  match deadline f with
  | TimerFired => true
  | TimerRunning => false
  end.

(** One round of [timeoutLoop]: every filter whose timer has fired is
    unsubscribed and deleted.  Go visits the map in an order of its own;
    [map_to_list] stands for the order of the round. *)
Definition timeoutRound (s : SubscribeApi) : SubscribeApi :=
  mkSubscribeApi
    (base.filter (fun kv => fired (snd kv) = false) (filterMap s))
    (unsubscribed s
     ++ map fst (List.filter (fun kv => fired (snd kv))
                   (map_to_list (filterMap s)))).

(** The deadline of a filter passes: the runtime fires its timer. *)
Definition timerFires (s : SubscribeApi) (id : ID) : SubscribeApi :=
  match filterMap s !! id with
  | Some f =>
      updateFilter s id
        (mkFilter (typ f) TimerFired (blocks f) (confirmedBlocks f) (logs f)
           (confirmedLogs f))
  | None => s
  end.

(** Batches arriving one after the other. *)
Definition deliverBlocks (s : SubscribeApi) (id : ID)
  (batches : list (list AccountBlockMsg)) : SubscribeApi :=
  fold_left (fun a ac => onAccountBlocks a id ac) batches s.

Definition deliverLogs (s : SubscribeApi) (id : ID)
  (batches : list (list LogsMsg)) : SubscribeApi :=
  fold_left (fun a l => onLogs a id l) batches s.

(** *** Filter parameters *)

Record Range : Type := mkRange
  { FromHeight : string;
    ToHeight : string }.

Record heightRange : Type := mkHeightRange
  { fromHeight : Z;
    toHeight : Z }.

(** [RpcFilterParam].  [AddrRange] is a Go map; the list holds its entries
    in the order one run of [toFilterParam] visits them. *)
Record RpcFilterParam : Type := mkRpcFilterParam
  { SnapshotRange : option Range;
    AddrRange : list (string * option Range);
    RpcTopics : list (list Hash);
    AccountHash : option Hash;
    RpcSnapshotHash : option Hash }.

Record filterParam : Type := mkFilterParam
  { snapshotRange : option heightRange;
    addrRange : gmap Address heightRange;
    topics : list (list Hash);
    accountHash : option Hash;
    snapshotHash : option Hash }.

Section Parsing.
(** [api.StringToUint64] and [types.HexToAddress] are declared outside the
    file. *)
Context (StringToUint64 : string -> Z + apiError)
        (HexToAddress : string -> Address + apiError).

Definition toHeightRange (r : option Range)
  : option heightRange + apiError :=
  match r with
  | Some r =>
      match StringToUint64 (FromHeight r) with
      | inr err => inr err
      | inl fromHeight =>
          match StringToUint64 (ToHeight r) with
          | inr err => inr err
          | inl toHeight => inl (Some (mkHeightRange fromHeight toHeight))
          end
      end
  | None => inl None
  end.

(** The loop over [p.AddrRange]. *)
Fixpoint addrRangeLoop (entries : list (string * option Range))
  (addrRange : gmap Address heightRange)
  : gmap Address heightRange + apiError :=
  match entries with
  | [] => inl addrRange
  | (hexAddr, r) :: rest =>
      match toHeightRange r with
      | inr err => inr err
      | inl hr =>
          let hr := default (mkHeightRange 0 0) hr in
          match HexToAddress hexAddr with
          | inr err => inr err
          | inl addr => addrRangeLoop rest (<[addr := hr]> addrRange)
          end
      end
  end.

Definition toFilterParam (p : RpcFilterParam) : filterParam + apiError :=
  match toHeightRange (SnapshotRange p) with
  | inr err => inr err
  | inl snapshotRange =>
      if (Z.of_nat (length (AddrRange p)) =? 0) then inr ErrAddrRangeNil
      else
        match addrRangeLoop (AddrRange p) ∅ with
        | inr err => inr err
        | inl addrRange =>
            inl (mkFilterParam snapshotRange addrRange (RpcTopics p)
                   (AccountHash p) (RpcSnapshotHash p))
        end
  end.

(** An entry both of whose parts parse. *)
Definition entryParses (e : string * option Range) : Prop :=
  (exists hr, toHeightRange (snd e) = inl hr)
  /\ (exists addr, HexToAddress (fst e) = inl addr).

End Parsing.

(** A decimal parser for small heights and an address parser that takes
    the bytes of a non-empty string, to run the conversions on. *)
Definition exampleStringToUint64 (s : string) : Z + apiError :=
  if bool_decide (s = "1"%string) then inl 1
  else if bool_decide (s = "20"%string) then inl 20
  else inr (ErrParse 1).

Definition exampleHexToAddress (s : string) : Address + apiError :=
  match String.list_byte_of_string s with
  | [] => inr (ErrParse 2)
  | l => inl l
  end.

End Filters.

(* ================================================================== *)
(** ** vite/net/receiver.go

    The receiver records the hashes it has seen in its [Filter], hands
    blocks to two feeds and to the broadcaster, and buffers new blocks while
    the node is syncing.  [Filter], [Verifier], the feeds and the
    broadcaster are declared outside the file: the filter is an interface of
    two operations on a state, a verifier is a pair of checks, and the calls
    made to [Notify] and to the broadcaster are recorded in the order they
    are made.  The methods are run one after the other. *)

Module Receiver.
Import Ledger.

(** Of a [ledger.AccountBlock] the receiver reads the hash and, for its
    log lines, the height. *)
Record accountBlock : Type := mkNetAccountBlock
  { AbHash : Hash;
    AbHeight : Z }.

(** [SyncState] is declared outside the file; the file names three of its
    values. *)
Inductive SyncState : Type :=
| Syncing
| Syncdone
| SyncDownloaded
| OtherSyncState (tag : Z).

(** [Filter]: [has] reads the record of hashes, [done] adds to it. *)
Class Filter (F : Type) : Type :=
  { has : F -> Hash -> bool;
    done : F -> Hash -> F }.

(** [Verifier]: a check answers [true] when the error it returns is nil. *)
Record Verifier : Type := mkVerifier
  { VerifyNetSb : SnapshotBlock -> bool;
    VerifyNetAb : accountBlock -> bool }.

(** [receiver]; [ready] is an [int32]. *)
Record receiver (F : Type) : Type := mkReceiver
  { ready : Z;
    newSBlocks : list SnapshotBlock;
    newABlocks : list accountBlock;
    sFeed : list SnapshotBlock;
    aFeed : list accountBlock;
    verifier : option Verifier;
    broadcastSnapshotBlocks : list SnapshotBlock;
    broadcastAccountBlocks : list accountBlock;
    filter : F }.

Arguments mkReceiver {F}.
Arguments ready {F}.
Arguments newSBlocks {F}.
Arguments newABlocks {F}.
Arguments sFeed {F}.
Arguments aFeed {F}.
Arguments verifier {F}.
Arguments broadcastSnapshotBlocks {F}.
Arguments broadcastAccountBlocks {F}.
Arguments filter {F}.

Section WithFilter.
Context {F : Type} {ops : Filter F}.

Definition newReceiver (verifier : option Verifier) (filter : F)
  : receiver F :=
  mkReceiver 0 [] [] [] [] verifier [] [] filter.

Definition mark (s : receiver F) (hash : Hash) : receiver F :=
  mkReceiver (ready s) (newSBlocks s) (newABlocks s) (sFeed s) (aFeed s)
    (verifier s) (broadcastSnapshotBlocks s) (broadcastAccountBlocks s)
    (done (filter s) hash).

(** [s.sFeed.Notify(block)] and [s.aFeed.Notify(block)] *)
Definition notifySnapshotBlock (s : receiver F) (block : SnapshotBlock)
  : receiver F :=
  mkReceiver (ready s) (newSBlocks s) (newABlocks s) (sFeed s ++ [block])
    (aFeed s) (verifier s) (broadcastSnapshotBlocks s)
    (broadcastAccountBlocks s) (filter s).

Definition notifyAccountBlock (s : receiver F) (block : accountBlock)
  : receiver F :=
  mkReceiver (ready s) (newSBlocks s) (newABlocks s) (sFeed s)
    (aFeed s ++ [block]) (verifier s) (broadcastSnapshotBlocks s)
    (broadcastAccountBlocks s) (filter s).

(** [s.newSBlocks = append(s.newSBlocks, block)] and its sibling *)
Definition storeSnapshotBlock (s : receiver F) (block : SnapshotBlock)
  : receiver F :=
  mkReceiver (ready s) (newSBlocks s ++ [block]) (newABlocks s) (sFeed s)
    (aFeed s) (verifier s) (broadcastSnapshotBlocks s)
    (broadcastAccountBlocks s) (filter s).

Definition storeAccountBlock (s : receiver F) (block : accountBlock)
  : receiver F :=
  mkReceiver (ready s) (newSBlocks s) (newABlocks s ++ [block]) (sFeed s)
    (aFeed s) (verifier s) (broadcastSnapshotBlocks s)
    (broadcastAccountBlocks s) (filter s).

(** [s.broadcaster.BroadcastSnapshotBlock(block)] and its sibling *)
Definition BroadcastSnapshotBlock (s : receiver F) (block : SnapshotBlock)
  : receiver F :=
  mkReceiver (ready s) (newSBlocks s) (newABlocks s) (sFeed s) (aFeed s)
    (verifier s) (broadcastSnapshotBlocks s ++ [block])
    (broadcastAccountBlocks s) (filter s).

Definition BroadcastAccountBlock (s : receiver F) (block : accountBlock)
  : receiver F :=
  mkReceiver (ready s) (newSBlocks s) (newABlocks s) (sFeed s) (aFeed s)
    (verifier s) (broadcastSnapshotBlocks s)
    (broadcastAccountBlocks s ++ [block]) (filter s).

(** The guard [s.verifier != nil] around the check of a block. *)
Definition verifiesSb (s : receiver F) (block : SnapshotBlock) : bool :=
  match verifier s with
  | Some v => VerifyNetSb v block
  | None => true
  end.

Definition verifiesAb (s : receiver F) (block : accountBlock) : bool :=
  match verifier s with
  | Some v => VerifyNetAb v block
  | None => true
  end.

Definition ReceiveNewSnapshotBlock (s : receiver F)
  (block : option SnapshotBlock) : receiver F :=
  match block with
  | None => s
  | Some block =>
      if has (filter s) (SbHash block) then s
      else if negb (verifiesSb s block) then s
      else
        let s := mark s (SbHash block) in
        let s := if ready s =? 0 then storeSnapshotBlock s block
                 else notifySnapshotBlock s block in
        BroadcastSnapshotBlock s block
  end.

Definition ReceiveNewAccountBlock (s : receiver F)
  (block : option accountBlock) : receiver F :=
  match block with
  | None => s
  | Some block =>
      if has (filter s) (AbHash block) then s
      else if negb (verifiesAb s block) then s
      else
        let s := mark s (AbHash block) in
        let s := if ready s =? 0 then storeAccountBlock s block
                 else notifyAccountBlock s block in
        BroadcastAccountBlock s block
  end.

Definition ReceiveSnapshotBlock (s : receiver F)
  (block : option SnapshotBlock) : receiver F :=
  match block with
  | None => s
  | Some block =>
      if has (filter s) (SbHash block) then s
      else if negb (verifiesSb s block) then s
      else notifySnapshotBlock (mark s (SbHash block)) block
  end.

Definition ReceiveAccountBlock (s : receiver F)
  (block : option accountBlock) : receiver F :=
  match block with
  | None => s
  | Some block =>
      if has (filter s) (AbHash block) then s
      else if negb (verifiesAb s block) then s
      else notifyAccountBlock (mark s (AbHash block)) block
  end.

Definition ReceiveSnapshotBlocks (s : receiver F)
  (blocks : list (option SnapshotBlock)) : receiver F :=
  fold_left ReceiveSnapshotBlock blocks s.

Definition ReceiveAccountBlocks (s : receiver F)
  (blocks : list (option accountBlock)) : receiver F :=
  fold_left ReceiveAccountBlock blocks s.

Definition isSyncing (st : SyncState) : bool :=
  match st with
  | Syncing => true
  | _ => false
  end.

Definition isSynced (st : SyncState) : bool :=
  match st with
  | Syncdone | SyncDownloaded => true
  | _ => false
  end.

Definition listen (s : receiver F) (st : SyncState) : receiver F :=
  if isSyncing st then
    mkReceiver 0 (newSBlocks s) (newABlocks s) (sFeed s) (aFeed s)
      (verifier s) (broadcastSnapshotBlocks s) (broadcastAccountBlocks s)
      (filter s)
  else if ready s =? 1 then s
  else if isSynced st then
    mkReceiver 1 [] []
      (fold_left (fun feed block => feed ++ [block]) (newSBlocks s)
         (sFeed s))
      (fold_left (fun feed block => feed ++ [block]) (newABlocks s)
         (aFeed s))
      (verifier s) (broadcastSnapshotBlocks s) (broadcastAccountBlocks s)
      (filter s)
  else s.

(** The calls the node makes on its receiver. *)
Inductive call : Type :=
| CallReceiveNewSnapshotBlock (block : option SnapshotBlock)
| CallReceiveNewAccountBlock (block : option accountBlock)
| CallReceiveSnapshotBlock (block : option SnapshotBlock)
| CallReceiveAccountBlock (block : option accountBlock)
| CallReceiveSnapshotBlocks (blocks : list (option SnapshotBlock))
| CallReceiveAccountBlocks (blocks : list (option accountBlock))
| CallListen (st : SyncState).

Definition step (s : receiver F) (c : call) : receiver F :=
  match c with
  | CallReceiveNewSnapshotBlock block => ReceiveNewSnapshotBlock s block
  | CallReceiveNewAccountBlock block => ReceiveNewAccountBlock s block
  | CallReceiveSnapshotBlock block => ReceiveSnapshotBlock s block
  | CallReceiveAccountBlock block => ReceiveAccountBlock s block
  | CallReceiveSnapshotBlocks blocks => ReceiveSnapshotBlocks s blocks
  | CallReceiveAccountBlocks blocks => ReceiveAccountBlocks s blocks
  | CallListen st => listen s st
  end.

Definition run (s : receiver F) (calls : list call) : receiver F :=
  fold_left step calls s.


(** The buffers hold blocks only while the receiver is silent, and every
    block handed to the broadcaster has reached its feed or waits in the
    buffer. *)
Definition consistent (s : receiver F) : Prop :=
  (ready s = 0 \/ ready s = 1)
  /\ (ready s = 1 -> newSBlocks s = [] /\ newABlocks s = [])
  /\ (forall block, In block (broadcastSnapshotBlocks s) ->
                    In block (sFeed s) \/ In block (newSBlocks s))
  /\ (forall block, In block (broadcastAccountBlocks s) ->
                    In block (aFeed s) \/ In block (newABlocks s)).

(** Hashes without repetition, all of them on record in the filter. *)
Definition tracked (f : F) (hashes : list Hash) : Prop :=
  NoDup hashes /\ forall h, In h hashes -> has f h = true.

Definition distinct (s : receiver F) : Prop :=
  tracked (filter s)
    (map SbHash (sFeed s) ++ map SbHash (newSBlocks s))
  /\ tracked (filter s)
       (map AbHash (aFeed s) ++ map AbHash (newABlocks s))
  /\ tracked (filter s) (map SbHash (broadcastSnapshotBlocks s))
  /\ tracked (filter s) (map AbHash (broadcastAccountBlocks s)).

End WithFilter.

(** A filter that keeps the set of the hashes marked. *)
#[global] Instance setFilter : Filter (gset Hash) :=
  {| has := fun f h => bool_decide (h ∈ f);
     done := fun f h => {[h]} ∪ f |}.

(** A filter that forgets. *)
Definition forgetfulFilter : Filter unit :=
  {| has := fun _ _ => false;
     done := fun f _ => f |}.

End Receiver.

(* ================================================================== *)
(** * Properties *)

(** ** Unsigned arithmetic without wrap-around *)

Module U64Facts.
Import U64.

Lemma modulus_eq : modulus = 18446744073709551616.
Proof. reflexivity. Qed.

Lemma wrap_small z : 0 <= z < modulus -> wrap z = z.
Proof. intros H. unfold wrap. apply Z.mod_small. exact H. Qed.

Lemma wrap_range z : 0 <= wrap z < modulus.
Proof. unfold wrap. apply Z.mod_pos_bound. rewrite modulus_eq. lia. Qed.

Lemma wrap_le z : 0 <= z -> wrap z <= z.
Proof.
  intros H. unfold wrap. apply Z.mod_le; [exact H|]. rewrite modulus_eq. lia.
Qed.

Lemma add_small a b : 0 <= a + b < modulus -> add a b = a + b.
Proof. intros H. unfold add. now apply wrap_small. Qed.

Lemma sub_small a b : 0 <= a - b < modulus -> sub a b = a - b.
Proof. intros H. unfold sub. now apply wrap_small. Qed.

Lemma mul_small a b : 0 <= a * b < modulus -> mul a b = a * b.
Proof. intros H. unfold mul. now apply wrap_small. Qed.

Lemma Min_spec x y : Min x y = Z.min x y.
Proof. unfold Min. destruct (Z.ltb_spec x y); lia. Qed.

Lemma MaxUint64_eq : MaxUint64 = 18446744073709551615.
Proof. reflexivity. Qed.

End U64Facts.

(** ** The quota engine *)

Module QuotaFacts.
Import Ledger Quota U64Facts.

(** Removes the wrap-around of every operation whose exact result is
    seen to be in range. *)
#[local] Ltac u64_side := rewrite ?modulus_eq, ?MaxUint64_eq in *; lia.

#[local] Ltac u64 :=
  repeat match goal with
    | |- context [U64.sub ?a ?b] => rewrite (sub_small a b) by u64_side
    | |- context [U64.add ?a ?b] => rewrite (add_small a b) by u64_side
    | |- context [U64.mul ?a ?b] => rewrite (mul_small a b) by u64_side
    | |- context [U64.wrap ?a] => rewrite (wrap_small a) by u64_side
    end.

(** *** CalcQuotaUsed *)

(** C5.  For [uint64] arguments with
    [quotaAddition + quotaLeft <= quotaTotal], [CalcQuotaUsed] returns
    [quotaTotal - quotaAddition] when the error is [ErrOutOfQuota], and
    without an error it returns [quotaTotal - quotaAddition - quotaLeft]
    less the refund
    [min(quotaRefund, (quotaTotal - quotaAddition - quotaLeft) / 2)]. *)
Theorem CalcQuotaUsed_spec
  (quotaTotal quotaAddition quotaLeft quotaRefund : Z) :
  U64.inRange quotaTotal -> U64.inRange quotaAddition ->
  U64.inRange quotaLeft -> U64.inRange quotaRefund ->
  quotaAddition + quotaLeft <= quotaTotal ->
  CalcQuotaUsed quotaTotal quotaAddition quotaLeft quotaRefund
    (Some ErrOutOfQuota)
  = quotaTotal - quotaAddition
  /\ CalcQuotaUsed quotaTotal quotaAddition quotaLeft quotaRefund None
     = quotaTotal - quotaAddition - quotaLeft
       - Z.min quotaRefund ((quotaTotal - quotaAddition - quotaLeft) / 2).
Proof.
  unfold U64.inRange. intros Ht Ha Hl Hr Hsum.
  split.
  - cbn [CalcQuotaUsed]. now u64.
  - cbn [CalcQuotaUsed]. unfold U64.div. rewrite Min_spec.
    assert (Hhalf : 0 <= (quotaTotal - quotaAddition - quotaLeft) / 2
                    <= quotaTotal - quotaAddition - quotaLeft).
    { split.
      - apply Z.div_pos; lia.
      - apply Z.div_le_upper_bound; lia. }
    u64.
    destruct (Z.ltb_spec (quotaTotal - quotaLeft) quotaAddition) as [Hlt|_];
      [lia|].
    u64. lia.
Qed.

(** C5 at 100000 total, 21000 for PoW, 30000 left, 40000 refund accrued:
    79000 are used when the quota ran out, and 24500 on success. *)
Lemma CalcQuotaUsed_spec_witness :
  CalcQuotaUsed 100000 21000 30000 40000 (Some ErrOutOfQuota) = 79000
  /\ CalcQuotaUsed 100000 21000 30000 40000 None = 24500.
Proof.
  assert (R : forall z, 0 <= z < 1000000 -> U64.inRange z).
  { intros z Hz. unfold U64.inRange. rewrite modulus_eq. lia. }
  apply (CalcQuotaUsed_spec 100000 21000 30000 40000);
    try (apply R; lia); lia.
Defined.

(** *** DataGasCost and IntrinsicGasCost *)

Lemma count_split (data : bytes) :
  nonZeroCount data + zeroCount data = Z.of_nat (length data).
Proof.
  unfold nonZeroCount, zeroCount.
  induction data as [|b data IH]; [reflexivity|].
  cbn [List.filter length]. destruct (Byte.eqb b Byte.x00); cbn [negb length]; lia.
Qed.

Lemma count_nonneg (data : bytes) :
  0 <= nonZeroCount data /\ 0 <= zeroCount data.
Proof. unfold nonZeroCount, zeroCount. lia. Qed.

(** The counter of the loop does not wrap on a slice. *)
Lemma countNonZero_from (data : bytes) (acc : Z) :
  0 <= acc -> acc + Z.of_nat (length data) < U64.modulus ->
  fold_left
    (fun n (byteCode : byte) =>
       if Byte.eqb byteCode Byte.x00 then n else U64.add n 1) data acc
  = acc + nonZeroCount data.
Proof.
  revert acc. induction data as [|b data IH]; intros acc Hacc Hlen.
  - unfold nonZeroCount. cbn. lia.
  - cbn [fold_left]. cbn [length] in Hlen.
    unfold nonZeroCount in *. cbn [List.filter].
    destruct (Byte.eqb b Byte.x00); cbn [negb length].
    + apply IH; lia.
    + rewrite add_small by lia. rewrite IH by lia. lia.
Qed.

Lemma countNonZero_spec (data : bytes) :
  Z.of_nat (length data) <= maxSliceLen ->
  countNonZero data = nonZeroCount data.
Proof.
  intros H. unfold countNonZero. rewrite countNonZero_from.
  - lia.
  - lia.
  - unfold maxSliceLen in H. rewrite modulus_eq. lia.
Qed.

(** [DataGasCost] is the exact cost when it fits, and the overflow error
    otherwise. *)
Lemma DataGasCost_cases (P : Params) (data : bytes) :
  GasParamsOk P -> Z.of_nat (length data) <= maxSliceLen ->
  DataGasCost P data
  = if dataCost P data <=? U64.MaxUint64 then inl (dataCost P data)
    else inr errGasUintOverflow.
Proof.
  intros (Hz & Hlt & Hnz & _ & _) Hlen.
  pose proof (count_split data) as Hsplit.
  pose proof (count_nonneg data) as [Hn0 Hz0].
  unfold DataGasCost, dataCost. rewrite (countNonZero_spec data Hlen).
  unfold maxSliceLen in Hlen. unfold U64.div.
  set (nz := nonZeroCount data) in *. set (z := zeroCount data) in *.
  set (a := txDataNonZeroGas P) in *. set (b := txDataZeroGas P) in *.
  rewrite MaxUint64_eq in *.
  destruct (Z.ltb_spec 0 (Z.of_nat (length data))) as [Hpos|Hempty].
  - pose proof (Z.mul_div_le 18446744073709551615 a ltac:(lia)) as Hd1.
    pose proof (Z.mul_succ_div_gt 18446744073709551615 a ltac:(lia)) as Hd2.
    destruct (Z.ltb_spec (18446744073709551615 / a) nz) as [Hover|Hfit].
    + destruct (Z.leb_spec (nz * a + z * b) 18446744073709551615);
        [nia|reflexivity].
    + assert (Hgas : 0 <= nz * a <= 18446744073709551615) by nia.
      u64.
      pose proof (Z.mul_div_le (18446744073709551615 - nz * a) b
                    ltac:(lia)) as He1.
      pose proof (Z.mul_succ_div_gt (18446744073709551615 - nz * a) b
                    ltac:(lia)) as He2.
      replace (Z.of_nat (length data) - nz) with z by lia.
      destruct (Z.ltb_spec ((18446744073709551615 - nz * a) / b) z)
        as [Hover|Hfit2].
      * destruct (Z.leb_spec (nz * a + z * b) 18446744073709551615);
          [nia|reflexivity].
      * assert (Hzb : 0 <= z * b <= 18446744073709551615 - nz * a) by nia.
        u64.
        destruct (Z.leb_spec (nz * a + z * b) 18446744073709551615);
          [reflexivity|lia].
  - assert (nz = 0) by lia. assert (z = 0) by lia.
    replace (nz * a + z * b) with 0 by nia. reflexivity.
Qed.

Lemma IntrinsicGasCost_cases (P : Params) (data : bytes) (isCreate : bool) :
  GasParamsOk P -> Z.of_nat (length data) <= maxSliceLen ->
  IntrinsicGasCost P data isCreate
  = if baseGas P isCreate + dataCost P data <=? U64.MaxUint64
    then inl (baseGas P isCreate + dataCost P data)
    else inr errGasUintOverflow.
Proof.
  intros Hok Hlen. unfold IntrinsicGasCost.
  rewrite (DataGasCost_cases P data Hok Hlen).
  destruct Hok as (Hz & Hlt & Hnz & Htx & Hcreate).
  pose proof (count_nonneg data) as [Hn0 Hz0].
  assert (Hcost : 0 <= dataCost P data) by (unfold dataCost; nia).
  assert (Hbase : 0 <= baseGas P isCreate < U64.modulus).
  { unfold baseGas. destruct isCreate; assumption. }
  fold (baseGas P isCreate).
  rewrite MaxUint64_eq in *. rewrite modulus_eq in *.
  destruct (Z.leb_spec (dataCost P data) 18446744073709551615) as [Hfit|Hover].
  - rewrite (sub_small 18446744073709551615) by (rewrite modulus_eq; lia).
    destruct (Z.ltb_spec (18446744073709551615 - baseGas P isCreate)
                (dataCost P data)).
    + destruct (Z.leb_spec (baseGas P isCreate + dataCost P data)
                  18446744073709551615); [lia|reflexivity].
    + rewrite add_small by (rewrite modulus_eq; lia).
      destruct (Z.leb_spec (baseGas P isCreate + dataCost P data)
                  18446744073709551615); [reflexivity|lia].
  - destruct (Z.leb_spec (baseGas P isCreate + dataCost P data)
                18446744073709551615); [lia|reflexivity].
Qed.

(** C6.  With [uint64] gas constants of which the non-zero per-byte cost
    is strictly greater than the (positive) zero per-byte cost, and for
    every slice [data]: [DataGasCost] returns exactly
    [nonZeroCount * txDataNonZeroGas + zeroCount * txDataZeroGas] when that
    sum fits in a [uint64], and [errGasUintOverflow] whenever one of the
    two products or their sum exceeds [MaxUint64]; [IntrinsicGasCost]
    returns base gas plus data gas when that fits and [errGasUintOverflow]
    when it does not; a single non-zero byte costs [txDataNonZeroGas], a
    single zero byte the smaller [txDataZeroGas]. *)
Theorem DataGasCost_spec (P : Params) (data : bytes) (isCreate : bool) :
  GasParamsOk P -> Z.of_nat (length data) <= maxSliceLen ->
  (dataCost P data <= U64.MaxUint64 ->
   DataGasCost P data = inl (dataCost P data))
  /\ (U64.MaxUint64 < nonZeroCount data * txDataNonZeroGas P
      \/ U64.MaxUint64 < zeroCount data * txDataZeroGas P
      \/ U64.MaxUint64 < dataCost P data ->
      DataGasCost P data = inr errGasUintOverflow)
  /\ (baseGas P isCreate + dataCost P data <= U64.MaxUint64 ->
      IntrinsicGasCost P data isCreate
      = inl (baseGas P isCreate + dataCost P data))
  /\ (U64.MaxUint64 < baseGas P isCreate + dataCost P data ->
      IntrinsicGasCost P data isCreate = inr errGasUintOverflow)
  /\ (forall b : byte, b <> Byte.x00 ->
      DataGasCost P [b] = inl (txDataNonZeroGas P)
      /\ DataGasCost P [Byte.x00] = inl (txDataZeroGas P)
      /\ txDataZeroGas P < txDataNonZeroGas P).
Proof.
  intros Hok Hlen.
  pose proof (count_nonneg data) as [Hn0 Hz0].
  pose proof Hok as (Hz & Hlt & Hnz & _ & _).
  rewrite (DataGasCost_cases P data Hok Hlen).
  rewrite (IntrinsicGasCost_cases P data isCreate Hok Hlen).
  repeat split.
  - intros H. destruct (Z.leb_spec (dataCost P data) U64.MaxUint64);
      [reflexivity|lia].
  - intros H.
    assert (U64.MaxUint64 < dataCost P data) by (unfold dataCost in *; nia).
    destruct (Z.leb_spec (dataCost P data) U64.MaxUint64);
      [lia|reflexivity].
  - intros H.
    destruct (Z.leb_spec (baseGas P isCreate + dataCost P data)
                U64.MaxUint64); [reflexivity|lia].
  - intros H.
    destruct (Z.leb_spec (baseGas P isCreate + dataCost P data)
                U64.MaxUint64); [lia|reflexivity].
  - rewrite (DataGasCost_cases P [b] Hok)
      by (unfold maxSliceLen; cbn; lia).
    unfold dataCost, nonZeroCount, zeroCount. cbn [List.filter].
    destruct (Byte.eqb b Byte.x00) eqn:Hb.
    + apply Byte.byte_dec_bl in Hb. contradiction.
    + cbn [negb length].
      replace (Z.of_nat 1 * txDataNonZeroGas P + Z.of_nat 0 * txDataZeroGas P)
        with (txDataNonZeroGas P) by lia.
      destruct (Z.leb_spec (txDataNonZeroGas P) U64.MaxUint64);
        [reflexivity|lia].
  - rewrite (DataGasCost_cases P [Byte.x00] Hok)
      by (unfold maxSliceLen; cbn; lia).
    unfold dataCost, nonZeroCount, zeroCount. cbn [List.filter].
    change (Byte.eqb Byte.x00 Byte.x00) with true. cbn [negb length].
    replace (Z.of_nat 0 * txDataNonZeroGas P + Z.of_nat 1 * txDataZeroGas P)
      with (txDataZeroGas P) by lia.
    destruct (Z.leb_spec (txDataZeroGas P) U64.MaxUint64);
      [reflexivity|lia].
  - exact Hlt.
Qed.

Lemma GasParamsOk_example : GasParamsOk Example.params.
Proof.
  unfold GasParamsOk, U64.inRange.
  repeat split; vm_compute; first [reflexivity | discriminate].
Qed.

Lemma GasParamsOk_steep : GasParamsOk Example.steepParams.
Proof.
  unfold GasParamsOk, U64.inRange.
  repeat split; vm_compute; first [reflexivity | discriminate].
Qed.

(** C6 on the payload [01 00 02]: two non-zero bytes and a zero byte cost
    [2 * 68 + 4 = 140], and [21140] with the base gas of a call; and under
    constants chosen to overflow, two non-zero bytes are refused. *)
Lemma DataGasCost_spec_witness :
  (DataGasCost Example.params [Byte.x01; Byte.x00; Byte.x02] = inl 140
   /\ IntrinsicGasCost Example.params [Byte.x01; Byte.x00; Byte.x02] false
      = inl 21140)
  /\ DataGasCost Example.steepParams [Byte.x01; Byte.x01] = inr errGasUintOverflow.
Proof.
  pose proof (DataGasCost_spec Example.params
                [Byte.x01; Byte.x00; Byte.x02] false GasParamsOk_example
                ltac:(vm_compute; discriminate)) as (H1 & _ & H3 & _).
  pose proof (DataGasCost_spec Example.steepParams [Byte.x01; Byte.x01] false
                GasParamsOk_steep ltac:(vm_compute; discriminate))
    as (_ & H2 & _).
  split; [split|].
  - apply H1. vm_compute. discriminate.
  - apply H3. vm_compute. discriminate.
  - apply H2. left. vm_compute. reflexivity.
Defined.

(** *** The lookup in the section table *)

Section Lookup.
Context (P : Params).

Lemma sectionAt_nth (i : Z) :
  0 <= i < sectionCount P ->
  sectionAt P i = Returns (sectionNth P (Z.to_nat i)).
Proof.
  intros Hi. unfold sectionAt, sectionNth, sectionCount in *.
  destruct (Z.ltb_spec i 0) as [?|_]; [lia|].
  destruct (nth_error (sectionList P) (Z.to_nat i)) as [s|] eqn:Hnth.
  - now rewrite (nth_error_nth _ _ _ Hnth).
  - apply nth_error_None in Hnth. lia.
Qed.

Lemma midpoint (left right : Z) :
  0 <= left -> left < right ->
  left < Z.quot (left + right + 1) 2 <= right.
Proof.
  intros H0 Hlt. rewrite Z.quot_div_nonneg by lia.
  split.
  - apply Z.lt_le_trans with ((2 * left + 2) / 2).
    + replace (2 * left + 2) with ((left + 1) * 2) by lia.
      rewrite Z.div_mul by lia. lia.
    + apply Z.div_le_mono; lia.
  - apply Z.div_le_upper_bound; lia.
Qed.

(** Whatever the table holds, the lookup returns an index of the table
    once the fuel covers the width of the range. *)
Lemma getIndexInSectionRange_bounds (fuel : nat) :
  forall (x : Q) (left right : Z),
    0 <= left -> left <= right -> right < sectionCount P ->
    (Z.to_nat (right - left) < fuel)%nat ->
    exists i, getIndexInSectionRange P fuel x left right = Returns i
              /\ 0 <= i <= right.
Proof.
  induction fuel as [|fuel IH]; intros x left right H0 Hle Hr Hfuel;
    [lia|].
  cbn [getIndexInSectionRange].
  destruct (Z.eqb_spec left right) as [->|Hne].
  - unfold getExactIndex. rewrite sectionAt_nth by lia. cbn [obind].
    destruct (_ ?= x)%Q; [eexists; split; [reflexivity|lia]..|].
    destruct (Z.eqb_spec right 0); eexists; (split; [reflexivity|lia]).
  - pose proof (midpoint left right H0 ltac:(lia)) as Hmid.
    set (mid := Z.quot (left + right + 1) 2) in *.
    rewrite sectionAt_nth by lia. cbn [obind].
    destruct (_ ?= x)%Q.
    + eexists; split; [reflexivity|lia].
    + apply IH; lia.
    + destruct (IH x left (mid - 1)) as (i & Hi & Hb); try lia.
      exists i. split; [exact Hi|lia].
Qed.

Lemma getIndexInSection_bounds (x : Q) :
  sectionList P <> [] ->
  exists i, getIndexInSection P x = Returns i
            /\ 0 <= i <= sectionCount P - 1.
Proof.
  intros Hne. unfold getIndexInSection.
  assert (0 < sectionCount P).
  { unfold sectionCount. destruct (sectionList P); [contradiction|].
    cbn [length]. lia. }
  apply getIndexInSectionRange_bounds; unfold sectionCount in *; lia.
Qed.

Hypothesis Hsorted : strictlyIncreasing P.

Lemma section_lt (i j : Z) :
  0 <= i -> i < j -> j < sectionCount P ->
  (sectionNth P (Z.to_nat i) < sectionNth P (Z.to_nat j))%Q.
Proof.
  intros H0 Hij Hj. apply Hsorted; unfold sectionCount in *; lia.
Qed.

Lemma section_le (i j : Z) :
  0 <= i -> i <= j -> j < sectionCount P ->
  (sectionNth P (Z.to_nat i) <= sectionNth P (Z.to_nat j))%Q.
Proof.
  intros H0 Hij Hj. destruct (Z.eq_dec i j) as [->|Hne].
  - apply Qle_refl.
  - apply Qlt_le_weak. apply section_lt; lia.
Qed.

(** The invariant of the recursion: every section to the right of the
    range is above [x], and the left end is index 0 or not above [x]. *)
Lemma getIndexInSectionRange_correct (fuel : nat) :
  forall (x : Q) (left right : Z),
    0 <= left -> left <= right -> right < sectionCount P ->
    (Z.to_nat (right - left) < fuel)%nat ->
    (forall j, right < j < sectionCount P ->
               (x < sectionNth P (Z.to_nat j))%Q) ->
    (left = 0 \/ (sectionNth P (Z.to_nat left) <= x)%Q) ->
    exists i, getIndexInSectionRange P fuel x left right = Returns i
              /\ ((sectionNth P 0 <= x)%Q -> largestIndexBelow P x i)
              /\ ((x < sectionNth P 0)%Q -> i = 0).
Proof.
  induction fuel as [|fuel IH];
    intros x left right H0 Hle Hr Hfuel Habove Hleft; [lia|].
  cbn [getIndexInSectionRange].
  destruct (Z.eqb_spec left right) as [->|Hne].
  - unfold getExactIndex. rewrite sectionAt_nth by lia. cbn [obind].
    destruct (Qcompare_spec (sectionNth P (Z.to_nat right)) x)
      as [Heq|Hlt|Hgt].
    + exists right. split; [reflexivity|]. split.
      * intros _. repeat split; try lia; [rewrite Heq; apply Qle_refl|].
        exact Habove.
      * intros Hx. pose proof (section_le 0 right) as Hm.
        change (Z.to_nat 0) with 0%nat in Hm.
        specialize (Hm ltac:(lia) ltac:(lia) ltac:(lia)). lra.
    + exists right. split; [reflexivity|]. split.
      * intros _. repeat split; try lia; [lra|exact Habove].
      * intros Hx. pose proof (section_le 0 right) as Hm.
        change (Z.to_nat 0) with 0%nat in Hm.
        specialize (Hm ltac:(lia) ltac:(lia) ltac:(lia)). lra.
    + destruct Hleft as [->|Hl]; [|lra].
      change (0 =? 0) with true. cbv iota.
      exists 0. split; [reflexivity|]. split.
      * intros Hx. change (Z.to_nat 0) with 0%nat in Hgt. lra.
      * reflexivity.
  - pose proof (midpoint left right H0 ltac:(lia)) as Hmid.
    set (mid := Z.quot (left + right + 1) 2) in *.
    rewrite sectionAt_nth by lia. cbn [obind].
    pose proof (section_lt 0 mid) as Hm0.
    change (Z.to_nat 0) with 0%nat in Hm0.
    specialize (Hm0 ltac:(lia) ltac:(lia) ltac:(lia)).
    destruct (Qcompare_spec (sectionNth P (Z.to_nat mid)) x)
      as [Heq|Hlt|Hgt].
    + exists mid. split; [reflexivity|]. split.
      * intros _. repeat split; try lia; [rewrite Heq; apply Qle_refl|].
        intros j Hj. pose proof (section_lt mid j) as Hmj.
        specialize (Hmj ltac:(lia) ltac:(lia) ltac:(lia)). lra.
      * intros Hx. lra.
    + apply IH; try lia.
      * exact Habove.
      * right. lra.
    + apply IH; try lia.
      * intros j Hj. pose proof (section_le mid j) as Hmj.
        specialize (Hmj ltac:(lia) ltac:(lia) ltac:(lia)). lra.
      * exact Hleft.
Qed.

End Lookup.

(** C8.  Over a non-empty, strictly increasing table, [getIndexInSection]
    returns, for every [x] that is at least [sectionList[0]], the largest
    index [i] with [sectionList[i] <= x]; for an [x] below
    [sectionList[0]] no index qualifies, and the value returned is the one
    [getExactIndex] yields at index 0, which is 0. *)
Theorem getIndexInSection_largest (P : Params) (x : Q) :
  sectionList P <> [] -> strictlyIncreasing P ->
  exists i : Z,
    getIndexInSection P x = Returns i
    /\ ((sectionNth P 0 <= x)%Q -> largestIndexBelow P x i)
    /\ ((x < sectionNth P 0)%Q ->
        (forall j : Z, 0 <= j < sectionCount P ->
                       ~ (sectionNth P (Z.to_nat j) <= x)%Q)
        /\ getExactIndex P x 0 = Returns i
        /\ i = 0).
Proof.
  intros Hne Hsorted.
  assert (Hpos : 0 < sectionCount P).
  { unfold sectionCount. destruct (sectionList P); [contradiction|].
    cbn [length]. lia. }
  destruct (getIndexInSectionRange_correct P Hsorted
              (S (length (sectionList P))) x 0 (sectionCount P - 1))
    as (i & Hi & Hge & Hlt); try (unfold sectionCount in *; lia).
  exists i. split; [exact Hi|]. split; [exact Hge|].
  intros Hx. specialize (Hlt Hx). subst i. repeat split.
  - intros j Hj Hle.
    pose proof (section_le P Hsorted 0 j ltac:(lia) ltac:(lia) ltac:(lia))
      as Hm.
    change (Z.to_nat 0) with 0%nat in Hm. lra.
  - unfold getExactIndex. rewrite sectionAt_nth by lia. cbn [obind].
    change (Z.to_nat 0) with 0%nat.
    destruct (Qcompare_spec (sectionNth P 0) x); reflexivity.
Qed.

Lemma strictlyIncreasing_example : strictlyIncreasing Example.params.
Proof.
  intros i j Hij Hj. cbn in Hj.
  destruct j as [|[|[|j]]]; [lia| | |lia];
    destruct i as [|[|i]]; try lia; vm_compute; reflexivity.
Qed.

(** C8 on the table [0, 5, 20] at [x = 7]: the index returned is 1,
    section 1 is at most 7 and section 2 is above it. *)
Lemma getIndexInSection_largest_witness :
  getIndexInSection Example.params 7%Q = Returns 1
  /\ largestIndexBelow Example.params 7%Q 1.
Proof.
  destruct (getIndexInSection_largest Example.params 7%Q
              ltac:(discriminate) strictlyIncreasing_example)
    as (i & Hi & Hge & _).
  assert (Hi1 : i = 1) by (vm_compute in Hi; congruence).
  subst i. split; [exact Hi|]. apply Hge. vm_compute. discriminate.
Defined.

(** *** CalcQuotaV2 *)

Section CalcQuota.
Context (P : Params).

(** What the loop computes, by the run it walks: [(0, 0)] as soon as a
    block is a receive-error block or carries a PoW nonce, and otherwise
    the exit computation on the quota the run has used.  The difficulty
    handed to the exit is the one of the call. *)
Lemma calcQuotaV2Loop_run (fuel : nat) (db : quotaDb) (pledgeAmount : Z)
  (isPoW : bool) (cur : Hash) :
  forall (b : option AccountBlock) (used : Z) (flag : bool)
         (difficulty : Z) (run : list AccountBlock)
         (stop : option AccountBlock),
    sameSnapshotRun fuel db cur b = Some (run, stop) ->
    calcQuotaV2Loop P fuel db pledgeAmount isPoW cur b used flag difficulty
    = if existsb quickFails run then Returns (0, 0)
      else calcQuotaV2Exit P db pledgeAmount isPoW stop
             (fold_left addQuota run used) difficulty.
Proof.
  induction fuel as [|fuel IH]; intros b used flag difficulty run stop Hrun;
    [discriminate|].
  cbn [sameSnapshotRun] in Hrun. cbn [calcQuotaV2Loop].
  destruct b as [pb|].
  - destruct (hash_eqb cur (SnapshotHash pb)).
    + destruct (sameSnapshotRun fuel db cur
                  (GetAccountBlockByHash db (PrevHash pb)))
        as [[run' stop']|] eqn:Hrest; [|discriminate].
      injection Hrun as <- <-.
      cbn [existsb fold_left]. unfold quickFails at 1.
      destruct (isReceiveError (BlockType_ pb)); [reflexivity|].
      destruct (IsPoW (Nonce pb)); [reflexivity|].
      cbn [orb]. apply (IH _ _ _ _ _ _ Hrest).
    + injection Hrun as <- <-. reflexivity.
  - injection Hrun as <- <-. reflexivity.
Qed.

Lemma quotaUsedBy_fold (run : list AccountBlock) :
  fold_left addQuota run 0 = quotaUsedBy run.
Proof. reflexivity. Qed.

Lemma fold_addQuota_range (run : list AccountBlock) (used : Z) :
  0 <= used < U64.modulus ->
  0 <= fold_left addQuota run used < U64.modulus.
Proof.
  revert used. induction run as [|pb run IH]; intros used Hused;
    [exact Hused|].
  cbn [fold_left]. apply IH. apply wrap_range.
Qed.

Lemma CalcQuotaV2_run (fuel : nat) (db : quotaDb) (addr : Address)
  (difficulty : Z) (cur : SnapshotBlock) (run : list AccountBlock)
  (stop : option AccountBlock) :
  CurrentSnapshotBlock db = Some cur ->
  sameSnapshotRun fuel db (SbHash cur) (PrevAccountBlock db)
  = Some (run, stop) ->
  CalcQuotaV2 P fuel db addr difficulty
  = if existsb quickFails run then Returns (0, 0)
    else calcQuotaV2Exit P db (GetPledgeBeneficialAmount db addr)
           (0 <? Z.sgn difficulty) stop (quotaUsedBy run) difficulty.
Proof.
  intros Hcur Hrun. unfold CalcQuotaV2. rewrite Hcur.
  now rewrite (calcQuotaV2Loop_run _ _ _ _ _ _ _ _ _ _ _ Hrun).
Qed.

(** Rule (i): a receive-error block in the run zeroes the call. *)
Lemma CalcQuotaV2_receive_error (fuel : nat) (db : quotaDb)
  (addr : Address) (difficulty : Z) (cur : SnapshotBlock)
  (run : list AccountBlock) (stop : option AccountBlock)
  (pb : AccountBlock) :
  CurrentSnapshotBlock db = Some cur ->
  sameSnapshotRun fuel db (SbHash cur) (PrevAccountBlock db)
  = Some (run, stop) ->
  In pb run -> BlockType_ pb = BlockTypeReceiveError ->
  CalcQuotaV2 P fuel db addr difficulty = Returns (0, 0).
Proof.
  intros Hcur Hrun Hin Herr. rewrite (CalcQuotaV2_run _ _ _ _ _ _ _ Hcur Hrun).
  replace (existsb quickFails run) with true; [reflexivity|].
  symmetry. apply existsb_exists. exists pb. split; [exact Hin|].
  unfold quickFails. now rewrite Herr.
Qed.

(** Rule (ii), and more than rule (ii): a block with a PoW nonce in the
    run zeroes the call, whether or not the call claims PoW quota. *)
Lemma CalcQuotaV2_pow_nonce (fuel : nat) (db : quotaDb)
  (addr : Address) (difficulty : Z) (cur : SnapshotBlock)
  (run : list AccountBlock) (stop : option AccountBlock)
  (pb : AccountBlock) :
  CurrentSnapshotBlock db = Some cur ->
  sameSnapshotRun fuel db (SbHash cur) (PrevAccountBlock db)
  = Some (run, stop) ->
  In pb run -> Nonce pb <> [] ->
  CalcQuotaV2 P fuel db addr difficulty = Returns (0, 0).
Proof.
  intros Hcur Hrun Hin Hnonce.
  rewrite (CalcQuotaV2_run _ _ _ _ _ _ _ Hcur Hrun).
  replace (existsb quickFails run) with true; [reflexivity|].
  symmetry. apply existsb_exists. exists pb. split; [exact Hin|].
  unfold quickFails, IsPoW. destruct (Nonce pb); [contradiction|].
  cbn [length]. rewrite orb_true_iff. right. apply Z.ltb_lt. lia.
Qed.

(** Rule (iii): a run without receive-error blocks and without PoW
    nonces leaves the exit computation with the quota the run used. *)
Lemma CalcQuotaV2_quota_used (fuel : nat) (db : quotaDb)
  (addr : Address) (difficulty : Z) (cur : SnapshotBlock)
  (run : list AccountBlock) (stop : option AccountBlock) :
  CurrentSnapshotBlock db = Some cur ->
  sameSnapshotRun fuel db (SbHash cur) (PrevAccountBlock db)
  = Some (run, stop) ->
  existsb quickFails run = false ->
  CalcQuotaV2 P fuel db addr difficulty
  = calcQuotaV2Exit P db (GetPledgeBeneficialAmount db addr)
      (0 <? Z.sgn difficulty) stop (quotaUsedBy run) difficulty.
Proof.
  intros Hcur Hrun Hnone.
  rewrite (CalcQuotaV2_run _ _ _ _ _ _ _ Hcur Hrun). now rewrite Hnone.
Qed.

(** *** The ceiling *)

Hypothesis Htable : sectionList P <> [].
Hypothesis Hsection : 0 <= quotaForSection P.

Lemma quotaCeiling_nonneg : 0 <= quotaCeiling P.
Proof.
  unfold quotaCeiling, sectionCount.
  destruct (sectionList P); [contradiction|]. cbn [length]. nia.
Qed.

Lemma quotaOfSection_bounds (x : Q) :
  exists q, quotaOfSection P x = Returns q /\ 0 <= q <= quotaCeiling P.
Proof.
  destruct (getIndexInSection_bounds P x Htable) as (i & Hi & Hb).
  unfold quotaOfSection. rewrite Hi. cbn [obind].
  eexists. split; [reflexivity|].
  unfold U64.mul, quotaCeiling.
  pose proof (wrap_le i ltac:(lia)) as Hwi.
  pose proof (wrap_range i) as Hri.
  split; [apply wrap_range|].
  etransitivity; [apply wrap_le; nia|]. nia.
Qed.

(** The second half of the exit: the budget with PoW, then the quota
    used taken off. *)
Lemma exit_budget_bound (isPoW : bool) (x : Q) (quotaWithoutPoW used : Z)
  (difficulty total addition : Z) :
  0 <= quotaWithoutPoW <= quotaCeiling P -> 0 <= used ->
  obind
    (if isPoW then
       quotaOfSection P
         (floatAdd P x (floatMul P (floatSetInt P difficulty) (paramB P)))
     else Returns quotaWithoutPoW)
    (fun quotaTotal =>
       if quotaTotal <? used then Returns (0, 0)
       else Returns (U64.sub quotaTotal used,
                     U64.sub quotaTotal quotaWithoutPoW))
  = Returns (total, addition) ->
  0 <= total <= quotaCeiling P.
Proof.
  intros Hq Hused Hret.
  assert (Hgen : forall quotaTotal,
             0 <= quotaTotal <= quotaCeiling P ->
             (if quotaTotal <? used then Returns (0, 0)
              else Returns (U64.sub quotaTotal used,
                            U64.sub quotaTotal quotaWithoutPoW))
             = Returns (total, addition) ->
             0 <= total <= quotaCeiling P).
  { intros quotaTotal Hqt Hr.
    destruct (Z.ltb_spec quotaTotal used) as [Hlt|Hge].
    - injection Hr as <- <-. lia.
    - injection Hr as <- <-. unfold U64.sub.
      pose proof (wrap_range (quotaTotal - used)).
      pose proof (wrap_le (quotaTotal - used) ltac:(lia)). lia. }
  destruct isPoW.
  - destruct (quotaOfSection_bounds
                (floatAdd P x
                   (floatMul P (floatSetInt P difficulty) (paramB P))))
      as (q & Hqs & Hb).
    rewrite Hqs in Hret. cbn [obind] in Hret. now apply (Hgen q).
  - cbn [obind] in Hret. now apply (Hgen quotaWithoutPoW).
Qed.

Lemma calcQuotaV2Exit_bound (db : quotaDb) (pledgeAmount : Z)
  (isPoW : bool) (stop : option AccountBlock) (used difficulty : Z)
  (total addition : Z) :
  0 <= used ->
  calcQuotaV2Exit P db pledgeAmount isPoW stop used difficulty
  = Returns (total, addition) ->
  0 <= total <= quotaCeiling P.
Proof.
  intros Hused. unfold calcQuotaV2Exit.
  pose proof quotaCeiling_nonneg as Hc.
  destruct stop as [pb|].
  - destruct (Z.sgn pledgeAmount =? 0).
    + cbn [obind]. apply exit_budget_bound; lia.
    + destruct (CurrentSnapshotBlock db) as [cur|]; [|discriminate].
      destruct (GetSnapshotBlockByHash db (SnapshotHash pb)) as [old|];
        [|discriminate].
      match goal with
      | |- context [obind (quotaOfSection P ?x) _] =>
          destruct (quotaOfSection_bounds x) as (q & Hq & Hb);
          rewrite Hq
      end.
      cbn [obind]. apply exit_budget_bound; lia.
  - cbn [obind]. apply exit_budget_bound; lia.
Qed.

Lemma calcQuotaV2Loop_bound (fuel : nat) (db : quotaDb)
  (pledgeAmount : Z) (isPoW : bool) (cur : Hash) :
  forall (b : option AccountBlock) (used : Z) (flag : bool)
         (difficulty total addition : Z),
    0 <= used ->
    calcQuotaV2Loop P fuel db pledgeAmount isPoW cur b used flag difficulty
    = Returns (total, addition) ->
    0 <= total <= quotaCeiling P.
Proof.
  pose proof quotaCeiling_nonneg as Hc.
  induction fuel as [|fuel IH];
    intros b used flag difficulty total addition Hused Hret;
    [discriminate|].
  cbn [calcQuotaV2Loop] in Hret.
  destruct b as [pb|]; [|now apply calcQuotaV2Exit_bound in Hret].
  destruct (hash_eqb cur (SnapshotHash pb));
    [|now apply calcQuotaV2Exit_bound in Hret].
  destruct (isReceiveError (BlockType_ pb)).
  { injection Hret as <- <-. lia. }
  destruct (IsPoW (Nonce pb)).
  { injection Hret as <- <-. lia. }
  apply IH in Hret; [exact Hret|].
  apply wrap_range.
Qed.

Lemma exit_budget_returns (isPoW : bool) (x : Q)
  (quotaWithoutPoW used difficulty : Z) :
  exists r,
    obind
      (if isPoW then
         quotaOfSection P
           (floatAdd P x (floatMul P (floatSetInt P difficulty) (paramB P)))
       else Returns quotaWithoutPoW)
      (fun quotaTotal =>
         if quotaTotal <? used then Returns (0, 0)
         else Returns (U64.sub quotaTotal used,
                       U64.sub quotaTotal quotaWithoutPoW))
    = Returns r.
Proof.
  destruct isPoW.
  - destruct (quotaOfSection_bounds
                (floatAdd P x
                   (floatMul P (floatSetInt P difficulty) (paramB P))))
      as (q & Hq & _).
    rewrite Hq. cbn [obind]. destruct (q <? used); eexists; reflexivity.
  - cbn [obind]. destruct (quotaWithoutPoW <? used); eexists; reflexivity.
Qed.

(** The exit returns once the snapshot of the block it stops at is
    known to the ledger. *)
Lemma calcQuotaV2Exit_returns (db : quotaDb) (pledgeAmount : Z)
  (isPoW : bool) (stop : option AccountBlock) (used difficulty : Z)
  (cur : SnapshotBlock) :
  CurrentSnapshotBlock db = Some cur ->
  (forall pb, stop = Some pb ->
              GetSnapshotBlockByHash db (SnapshotHash pb) <> None) ->
  exists r,
    calcQuotaV2Exit P db pledgeAmount isPoW stop used difficulty
    = Returns r.
Proof.
  intros Hcur Hknown. unfold calcQuotaV2Exit.
  destruct stop as [pb|].
  - destruct (Z.sgn pledgeAmount =? 0).
    + cbn [obind]. apply exit_budget_returns.
    + rewrite Hcur.
      destruct (GetSnapshotBlockByHash db (SnapshotHash pb)) as [old|] eqn:Hold;
        [|now destruct (Hknown pb eq_refl)].
      match goal with
      | |- context [obind (quotaOfSection P ?x) _] =>
          destruct (quotaOfSection_bounds x) as (q & Hq & Hb);
          rewrite Hq
      end.
      cbn [obind]. apply exit_budget_returns.
  - cbn [obind]. apply exit_budget_returns.
Qed.

End CalcQuota.




(** C10.  When the account has no previous block, or its pledge
    beneficial amount is zero, a call of [CalcQuotaV2] with difficulty 0
    returns [(0, 0)] (the walk over the previous blocks ending within the
    fuel). *)
Theorem CalcQuotaV2_without_pow (P : Params) (fuel : nat) (db : quotaDb)
  (addr : Address) (cur : SnapshotBlock) (run : list AccountBlock)
  (stop : option AccountBlock) :
  CurrentSnapshotBlock db = Some cur ->
  sameSnapshotRun fuel db (SbHash cur) (PrevAccountBlock db)
  = Some (run, stop) ->
  PrevAccountBlock db = None \/ GetPledgeBeneficialAmount db addr = 0 ->
  CalcQuotaV2 P fuel db addr 0 = Returns (0, 0).
Proof.
  intros Hcur Hrun Hcase.
  rewrite (CalcQuotaV2_run P _ _ _ _ _ _ _ Hcur Hrun).
  destruct (existsb quickFails run); [reflexivity|].
  pose proof (fold_addQuota_range run 0
                ltac:(rewrite modulus_eq; lia)) as Hused.
  rewrite quotaUsedBy_fold in Hused.
  assert (Hexit : forall stop',
             stop' = None \/ GetPledgeBeneficialAmount db addr = 0 ->
             calcQuotaV2Exit P db (GetPledgeBeneficialAmount db addr)
               (0 <? Z.sgn 0) stop' (quotaUsedBy run) 0 = Returns (0, 0)).
  { intros stop' Hs. unfold calcQuotaV2Exit.
    assert (Htail :
              (if 0 <? quotaUsedBy run then Returns (0, 0)
               else Returns (U64.sub 0 (quotaUsedBy run), U64.sub 0 0))
              = Returns (0, 0)).
    { destruct (Z.ltb_spec 0 (quotaUsedBy run)) as [|Hz]; [reflexivity|].
      replace (quotaUsedBy run) with 0 by lia. reflexivity. }
    destruct stop' as [pb|].
    - destruct Hs as [Hs|Hs]; [discriminate|]. rewrite Hs.
      change (Z.sgn 0 =? 0) with true. change (0 <? Z.sgn 0) with false.
      cbn [obind]. exact Htail.
    - change (0 <? Z.sgn 0) with false. cbn [obind]. exact Htail. }
  apply Hexit. destruct Hcase as [Hnone|Hpledge]; [|now right].
  left. rewrite Hnone in Hrun. destruct fuel; [discriminate|].
  cbn in Hrun. congruence.
Qed.

(** C10 on an account without blocks and without pledge, and on an account
    without pledge whose newest block used quota 100 under the current
    snapshot. *)
Lemma CalcQuotaV2_without_pow_witness :
  CalcQuotaV2 Example.params 5 Example.emptyLedger Example.account 0
  = Returns (0, 0)
  /\ CalcQuotaV2 Example.params 5 (Example.unpledged Example.block2plain)
       Example.account 0
     = Returns (0, 0).
Proof.
  split.
  - apply (CalcQuotaV2_without_pow Example.params 5 Example.emptyLedger
             Example.account Example.snapshot10 [] None).
    + reflexivity.
    + reflexivity.
    + left. reflexivity.
  - apply (CalcQuotaV2_without_pow Example.params 5
             (Example.unpledged Example.block2plain) Example.account
             Example.snapshot10 [Example.block2plain]
             (Some Example.block1)).
    + reflexivity.
    + vm_compute. reflexivity.
    + right. reflexivity.
Defined.

(** On the example ledger whose newest block carries a PoW nonce, the
    earlier [CalcQuotaV1] tests
    [len(prevBlock.Nonce) > 0 && pow] and leaves a call without PoW its
    pledge budget. *)
Lemma CalcQuotaV1_keeps_plain_call_after_pow :
  CalcQuotaV1 Example.params 5 (Example.ledger Example.block2)
    Example.account false = Returns (7, 0).
Proof. vm_compute. reflexivity. Qed.

(** C1.  On the example ledger the newest block refers to the current
    snapshot, is not a receive-error block, used no quota and carries a PoW
    nonce; the account has pledge.  A call that claims no PoW quota
    (difficulty 0) gets [(0, 0)] from [CalcQuotaV2], where the quick-fail
    rules as specified leave it the budget of its pledge, [(21000, 0)]. *)
Theorem CalcQuotaV2_zeroes_plain_call_after_pow :
  CalcQuotaV2 Example.params 5 (Example.ledger Example.block2)
    Example.account 0 = Returns (0, 0)
  /\ CalcQuotaV2_asSpecified Example.params 5
       (Example.ledger Example.block2) Example.account 0
     = Returns (21000, 0).
Proof. split; vm_compute; reflexivity. Qed.

End QuotaFacts.

(** ** The storage facade *)

Module VmDbFacts.
Import VmDb.

Lemma GetValue_SetValue_other (db : vmDb) (key key' value : bytes) :
  key <> key' -> GetValue (SetValue db key value) key' = GetValue db key'.
Proof.
  intros Hne. unfold GetValue, GetOriginalValue, SetValue, Unsaved_GetValue,
    Unsaved_SetValue. cbn. now rewrite lookup_insert_ne.
Qed.

(** C9.  [GetValue] returns the value of the unsaved overlay whenever the
    overlay holds one for the key, and otherwise what the committed
    previous snapshot returns; after [SetValue] the value just written is
    read back; [DeleteValue] is [SetValue] with no bytes, so that after a
    delete [GetValue] returns no bytes, whatever the snapshot holds. *)
Theorem GetValue_overlay_first (db : vmDb) (key value : bytes) :
  (forall v, Unsaved_GetValue (unsaved db) key = Some v ->
             GetValue db key = inl v)
  /\ (Unsaved_GetValue (unsaved db) key = None ->
      GetValue db key = GetOriginalValue db key
      /\ forall snapshot, getPrevStateSnapshot db = inl snapshot ->
                          GetValue db key = Snapshot_GetValue snapshot key)
  /\ GetValue (SetValue db key value) key = inl value
  /\ DeleteValue db key = SetValue db key []
  /\ GetValue (DeleteValue db key) key = inl [].
Proof.
  split; [|split; [|split; [|split]]].
  - intros v Hv. unfold GetValue. now rewrite Hv.
  - intros Hmiss. split.
    + unfold GetValue. now rewrite Hmiss.
    + intros snapshot Hs. unfold GetValue, GetOriginalValue.
      now rewrite Hmiss, Hs.
  - unfold GetValue, SetValue, Unsaved_GetValue, Unsaved_SetValue. cbn.
    now rewrite lookup_insert_eq.
  - reflexivity.
  - unfold GetValue, DeleteValue, Unsaved_GetValue, Unsaved_SetValue. cbn.
    now rewrite lookup_insert_eq.
Qed.

(** C9 on a snapshot that holds [07] under every key: an empty overlay
    reads the snapshot, a write of [09] under key [01] is read back, and
    the delete shadows the snapshot with no bytes. *)
Lemma GetValue_overlay_first_witness :
  let db := mkVmDb (mkUnsaved ∅)
              (inl (mkStateSnapshot (fun _ => inl [Byte.x07]))) in
  GetValue db [Byte.x01] = inl [Byte.x07]
  /\ GetValue (SetValue db [Byte.x01] [Byte.x09]) [Byte.x01]
     = inl [Byte.x09]
  /\ GetValue (DeleteValue db [Byte.x01]) [Byte.x01] = inl [].
Proof.
  intros db.
  pose proof (GetValue_overlay_first db [Byte.x01] [Byte.x09])
    as (_ & Hmiss & Hset & _ & Hdel).
  split; [|split; [exact Hset|exact Hdel]].
  destruct (Hmiss ltac:(reflexivity)) as [_ Hsnap].
  apply (Hsnap (mkStateSnapshot (fun _ => inl [Byte.x07]))). reflexivity.
Defined.

End VmDbFacts.

(** ** The wire format of the scenarios *)

Module WireFacts.
Import Ledger Dex Wire.

Lemma getPos_putPos (p : positive) (rest : bytes) :
  getPos (putPos p ++ rest) = Some (p, rest).
Proof.
  induction p as [p IH|p IH|]; cbn; [now rewrite IH..|reflexivity].
Qed.

Lemma getZ_putZ (z : Z) (rest : bytes) :
  getZ (putZ z ++ rest) = Some (z, rest).
Proof.
  destruct z as [|p|p]; cbn; [reflexivity|now rewrite getPos_putPos..].
Qed.

Lemma getBytes_putBytes (b rest : bytes) :
  getBytes (putBytes b ++ rest) = Some (b, rest).
Proof.
  unfold getBytes, putBytes, pbind. rewrite <- app_assoc, getZ_putZ.
  rewrite Nat2Z.id, take_app_length, drop_app_length.
  replace ((0 <=? Z.of_nat (length b))
           && (Z.of_nat (length b) <=? Z.of_nat (length (b ++ rest))))
    with true; [reflexivity|].
  symmetry. rewrite length_app. apply andb_true_iff.
  split; apply Z.leb_le; lia.
Qed.

Lemma getBool_putBool (b : bool) (rest : bytes) :
  getBool (putBool b ++ rest) = Some (b, rest).
Proof.
  unfold getBool, putBool, pbind. rewrite getZ_putZ. now destruct b.
Qed.

Lemma getType_putType (t : OrderType) (rest : bytes) :
  getType (putType t ++ rest) = Some (t, rest).
Proof.
  unfold getType, putType, pbind. rewrite getZ_putZ. now destruct t.
Qed.

Lemma getStatus_putStatus (st : OrderStatus) (rest : bytes) :
  getStatus (putStatus st ++ rest) = Some (st, rest).
Proof.
  unfold getStatus, putStatus, pbind. rewrite getZ_putZ. now destruct st.
Qed.

#[local] Ltac fields :=
  unfold pbind, pret;
  repeat (rewrite <- ?app_assoc;
          first [ rewrite getZ_putZ | rewrite getBytes_putBytes
                | rewrite getBool_putBool | rewrite getType_putType
                | rewrite getStatus_putStatus ]).

Lemma getAccountRec_putAccount (a : Account) (rest : bytes) :
  getAccountRec (putAccount a ++ rest) = Some (a, rest).
Proof.
  unfold getAccountRec, putAccount. fields. now destruct a.
Qed.

Lemma getOrder_putOrder (o : Order) (rest : bytes) :
  getOrder (putOrder o ++ rest) = Some (o, rest).
Proof.
  unfold getOrder, putOrder. fields. now destruct o.
Qed.

Lemma getSettleAction_putSettleAction (a : SettleAction) (rest : bytes) :
  getSettleAction (putSettleAction a ++ rest) = Some (a, rest).
Proof.
  unfold getSettleAction, putSettleAction. fields. now destruct a.
Qed.

Lemma getCall_putCall (c : MethodCall) (rest : bytes) :
  getCall (putCall c ++ rest) = Some (c, rest).
Proof.
  unfold getCall, pbind at 1; destruct c; unfold putCall;
    rewrite <- ?app_assoc, getZ_putZ; cbn [Z.eqb Pos.eqb]; fields;
    reflexivity.
Qed.

Section Many.
Context {A : Type} (put : A -> bytes) (get : parser A).
Hypothesis get_put : forall x rest, get (put x ++ rest) = Some (x, rest).

Lemma getMany_putMany (xs : list A) (rest : bytes) :
  getMany get (length xs) (putMany put xs ++ rest) = Some (xs, rest).
Proof.
  induction xs as [|x xs IH]; [reflexivity|].
  cbn [length putMany getMany]. unfold pbind.
  rewrite <- app_assoc, get_put. fold (@pbind (list A) (list A)).
  unfold pbind. now rewrite IH.
Qed.

Lemma getList_putList (xs : list A) (rest : bytes) :
  getList get (putList put xs ++ rest) = Some (xs, rest).
Proof.
  unfold getList, putList, pbind. rewrite <- app_assoc, getZ_putZ.
  destruct (Z.ltb_spec (Z.of_nat (length xs)) 0) as [?|_]; [lia|].
  rewrite Nat2Z.id. apply getMany_putMany.
Qed.
End Many.

Lemma complete_put {A} (put : A -> bytes) (get : parser A) :
  (forall x rest, get (put x ++ rest) = Some (x, rest)) ->
  forall x, complete get (put x) = Some x.
Proof.
  intros Hgp x. unfold complete.
  rewrite <- (app_nil_r (put x)). now rewrite Hgp.
Qed.

Lemma testRuntime_laws : RuntimeLaws testRuntime.
Proof.
  split; cbn.
  - apply complete_put, getCall_putCall.
  - apply complete_put, getOrder_putOrder.
  - apply complete_put. intros. apply getList_putList.
    apply getSettleAction_putSettleAction.
  - intros f. unfold getFund.
    pose proof (complete_put (putList putAccount) (getList getAccountRec)
                  (fun x rest =>
                     getList_putList putAccount getAccountRec
                       getAccountRec_putAccount x rest) f) as Hc.
    destruct (putList putAccount f) eqn:Hput; [|exact Hc].
    unfold putList in Hput. destruct (Z.of_nat (length f)); discriminate.
  - reflexivity.
Qed.

End WireFacts.

(** ** The DEX fund contract *)

Module DexFacts.
Import Ledger Dex.

Section WithRuntime.
Context {R : Runtime}.







Lemma isUint64_spec (z : Z) : isUint64 z = true <-> U64.inRange z.
Proof.
  unfold isUint64, U64.inRange. rewrite andb_true_iff, Z.leb_le, Z.ltb_lt.
  reflexivity.
Qed.






Context (L : RuntimeLaws R).





Lemma fundOf_read (db : testDatabase) (user : Address) (f : Fund) :
  GetFundFromStorage db user = inl f -> fundOf db user = f.
Proof. intros H. unfold fundOf. now rewrite H. Qed.

End WithRuntime.

(** C4.  On a send block whose payload is the packed call
    [UserDeposit(beneficiary, asset, amount)]: when [asset] is not
    registered in the mintage registry, [DoSend] returns [TokenInvalid]
    and with it no block; when it is registered, [DoSend] succeeds and
    the block it returns has [asset] as token id, [amount] as amount and
    [AddressDexFund] as destination. *)
Theorem UserDeposit_DoSend_spec (R : Runtime) (L : RuntimeLaws R)
  (db : testDatabase) (block : AccountBlock) (beneficiary : Address)
  (asset : TokenTypeId) (amount : Z) :
  Data block = PackMethod (CallUserDeposit beneficiary asset amount) ->
  (IsTokenRegistered db asset = false ->
   UserDeposit_DoSend db block = inr TokenInvalid)
  /\ (IsTokenRegistered db asset = true ->
      exists sent : AccountBlock,
        UserDeposit_DoSend db block = inl sent
        /\ TokenId sent = asset
        /\ Amount sent = amount
        /\ ToAddress sent = AddressDexFund).
Proof.
  intros Hdata. unfold UserDeposit_DoSend.
  rewrite Hdata, (unpack_pack R L). split; intros Hreg; rewrite Hreg.
  - reflexivity.
  - eexists. split; [reflexivity|]. cbn. auto.
Qed.

(** C4 on the database of [TestDexFund], where VITE is registered and ETH
    is not: the deposit of 100 ETH is refused with [TokenInvalid], the
    deposit of 3000 VITE yields a transfer of 3000 VITE to the fund
    contract. *)
Lemma UserDeposit_DoSend_spec_witness :
  UserDeposit_DoSend Scenario.db0
    (Scenario.blockFrom Scenario.userAddress
       (PackMethod
          (CallUserDeposit Scenario.userAddress Scenario.ETH 100)))
  = inr TokenInvalid
  /\ exists sent : AccountBlock,
       UserDeposit_DoSend Scenario.db0
         (Scenario.blockFrom Scenario.userAddress
            (PackMethod
               (CallUserDeposit Scenario.userAddress Scenario.VITE 3000)))
       = inl sent
       /\ TokenId sent = Scenario.VITE
       /\ Amount sent = 3000
       /\ ToAddress sent = AddressDexFund.
Proof.
  split.
  - apply (UserDeposit_DoSend_spec Wire.testRuntime
             WireFacts.testRuntime_laws Scenario.db0
             (Scenario.blockFrom Scenario.userAddress
                (PackMethod
                   (CallUserDeposit Scenario.userAddress Scenario.ETH 100)))
             Scenario.userAddress Scenario.ETH 100).
    + reflexivity.
    + vm_compute. reflexivity.
  - apply (UserDeposit_DoSend_spec Wire.testRuntime
             WireFacts.testRuntime_laws Scenario.db0
             (Scenario.blockFrom Scenario.userAddress
                (PackMethod
                   (CallUserDeposit Scenario.userAddress Scenario.VITE
                      3000)))
             Scenario.userAddress Scenario.VITE 3000).
    + reflexivity.
    + vm_compute. reflexivity.
Defined.

Section Orders.
Context {R : Runtime} (L : RuntimeLaws R).






(** A settle action that would leave a balance outside [uint64], below 0
    or above [MaxUint64], is refused. *)
Lemma settleAction_refuses (db : testDatabase) (a : SettleAction)
  (fund : Fund) :
  GetFundFromStorage db (SAddress a) = inl fund ->
  ~ U64.inRange (availableOf db (SAddress a) (SAsset a)
                 + IncAvailable a - DeduceAvailable a)
  \/ ~ U64.inRange (lockedOf db (SAddress a) (SAsset a)
                    + IncLocked a - DeduceLocked a) ->
  settleAction db a = inr ConsistencyViolation.
Proof.
  intros Hfund Hout. unfold settleAction. rewrite Hfund. cbn [bindE].
  cbv zeta. unfold availableOf, lockedOf in Hout.
  rewrite (fundOf_read db _ fund Hfund) in Hout.
  destruct (isUint64 (Available _ + _ - _)) eqn:Hav;
    [|reflexivity].
  destruct (isUint64 (Locked _ + _ - _)) eqn:Hlk; [|reflexivity].
  apply isUint64_spec in Hav, Hlk. tauto.
Qed.








End Orders.





(** On the runtime of the scenarios: an envelope that would take a balance
    past [MaxUint64] is refused whole, and an envelope with a delta outside
    [u64] does not read. *)
Lemma SettleOrders_out_of_range :
  SettleOrders_DoReceive initDatabase
    (Scenario.blockFrom AddressDexTrade
       (PackMethod
          (CallSettleOrders
             (encodeSettleOrders
                [mkSettleAction Scenario.userAddress Scenario.VITE
                   U64.MaxUint64 0 0 0;
                 mkSettleAction Scenario.userAddress Scenario.VITE
                   1 0 0 0]))))
  = inr ConsistencyViolation
  /\ SettleOrders_DoReceive initDatabase
       (Scenario.blockFrom AddressDexTrade
          (PackMethod
             (CallSettleOrders
                (encodeSettleOrders
                   [mkSettleAction Scenario.userAddress Scenario.VITE
                      (-1) 0 0 0]))))
     = inr InvalidArgument.
Proof. split; vm_compute; reflexivity. Qed.

End DexFacts.

(* ================================================================== *)
(** ** More on the quota engine *)

Module QuotaMore.
Import Ledger Quota U64Facts QuotaFacts.

#[local] Ltac range_side := rewrite ?modulus_eq, ?MaxUint64_eq in *; lia.

(** *** UseQuota and UseQuotaForData *)

Lemma UseQuota_cases (quotaLeft cost : Z) :
  U64.inRange quotaLeft -> U64.inRange cost ->
  UseQuota quotaLeft cost
  = if cost <=? quotaLeft then inl (quotaLeft - cost) else inr ErrOutOfQuota.
Proof.
  unfold U64.inRange, UseQuota. intros Hq Hc.
  destruct (Z.ltb_spec quotaLeft cost), (Z.leb_spec cost quotaLeft);
    try lia; [reflexivity|].
  now rewrite sub_small by lia.
Qed.

(** X1.  For [uint64] arguments, charging [c1] and then [c2] with
    [UseQuota] succeeds exactly when [c1 + c2], taken over the integers, is
    at most the quota left, and then leaves [quotaLeft - c1 - c2]; otherwise
    the outcome is [ErrOutOfQuota].  A charge that succeeds leaves a quota
    that, added to the cost, gives back the quota there was. *)
Theorem UseQuota_twice (quotaLeft c1 c2 : Z) :
  U64.inRange quotaLeft -> U64.inRange c1 -> U64.inRange c2 ->
  match UseQuota quotaLeft c1 with
  | inl q1 => UseQuota q1 c2
  | inr e => inr e
  end
  = (if c1 + c2 <=? quotaLeft then inl (quotaLeft - c1 - c2)
     else inr ErrOutOfQuota)
  /\ (forall q1, UseQuota quotaLeft c1 = inl q1 ->
                 0 <= q1 <= quotaLeft /\ q1 + c1 = quotaLeft).
Proof.
  intros Hq H1 H2. rewrite (UseQuota_cases quotaLeft c1 Hq H1).
  unfold U64.inRange in *. split.
  - destruct (Z.leb_spec c1 quotaLeft) as [Hle|Hgt].
    + rewrite UseQuota_cases by (unfold U64.inRange; lia).
      destruct (Z.leb_spec c2 (quotaLeft - c1)),
               (Z.leb_spec (c1 + c2) quotaLeft); try lia; reflexivity.
    + destruct (Z.leb_spec (c1 + c2) quotaLeft); [lia|reflexivity].
  - intros q1 Hq1. destruct (Z.leb_spec c1 quotaLeft); [|discriminate].
    injection Hq1 as <-. lia.
Qed.

(** X1 on a quota of 100: charges of 30 and 50 leave 20, charges of 30 and
    71 run out of quota. *)
Lemma UseQuota_twice_witness :
  match UseQuota 100 30 with
  | inl q1 => UseQuota q1 50
  | inr e => inr e
  end = inl 20
  /\ match UseQuota 100 30 with
     | inl q1 => UseQuota q1 71
     | inr e => inr e
     end = inr ErrOutOfQuota.
Proof.
  assert (R : forall z, 0 <= z < 1000 -> U64.inRange z).
  { intros z Hz. unfold U64.inRange. rewrite modulus_eq. lia. }
  split.
  - exact (proj1 (UseQuota_twice 100 30 50 (R 100 ltac:(lia))
                    (R 30 ltac:(lia)) (R 50 ltac:(lia)))).
  - exact (proj1 (UseQuota_twice 100 30 71 (R 100 ltac:(lia))
                    (R 30 ltac:(lia)) (R 71 ltac:(lia)))).
Defined.

Lemma dataCost_range (P : Params) (data : bytes) :
  GasParamsOk P -> 0 <= dataCost P data.
Proof.
  intros (Hz & Hlt & _). pose proof (count_nonneg data) as [Hn Hzc].
  unfold dataCost. nia.
Qed.

(** X2.  With well-formed gas constants, for a slice [data] and a [uint64]
    quota: [UseQuotaForData] returns [errGasUintOverflow] when the cost of
    the data does not fit a [uint64], whatever the quota; otherwise
    [ErrOutOfQuota] when the cost exceeds the quota left; otherwise the quota
    left less the cost. *)
Theorem UseQuotaForData_cases (P : Params) (data : bytes) (quotaLeft : Z) :
  GasParamsOk P -> Z.of_nat (length data) <= maxSliceLen ->
  U64.inRange quotaLeft ->
  UseQuotaForData P data quotaLeft
  = if U64.MaxUint64 <? dataCost P data then inr errGasUintOverflow
    else if quotaLeft <? dataCost P data then inr ErrOutOfQuota
         else inl (quotaLeft - dataCost P data).
Proof.
  intros Hok Hlen Hq. unfold UseQuotaForData.
  rewrite (DataGasCost_cases P data Hok Hlen).
  pose proof (dataCost_range P data Hok) as Hc.
  destruct (Z.leb_spec (dataCost P data) U64.MaxUint64) as [Hfit|Hover],
           (Z.ltb_spec U64.MaxUint64 (dataCost P data)); try lia;
    [|reflexivity].
  rewrite UseQuota_cases; [|exact Hq|unfold U64.inRange; range_side].
  destruct (Z.leb_spec (dataCost P data) quotaLeft),
           (Z.ltb_spec quotaLeft (dataCost P data)); try lia; reflexivity.
Qed.

(** X2 on the payload [01 00 02], which costs 140: a quota of 1000 leaves
    860, a quota of 100 runs out. *)
Lemma UseQuotaForData_cases_witness :
  UseQuotaForData Example.params [Byte.x01; Byte.x00; Byte.x02] 1000
  = inl 860
  /\ UseQuotaForData Example.params [Byte.x01; Byte.x00; Byte.x02] 100
     = inr ErrOutOfQuota.
Proof.
  assert (Hlen : Z.of_nat (length [Byte.x01; Byte.x00; Byte.x02])
                 <= maxSliceLen) by (vm_compute; discriminate).
  assert (R : forall z, 0 <= z < 10000 -> U64.inRange z).
  { intros z Hz. unfold U64.inRange. rewrite modulus_eq. lia. }
  split.
  - rewrite (UseQuotaForData_cases Example.params _ 1000 GasParamsOk_example
               Hlen (R 1000 ltac:(lia))).
    vm_compute. reflexivity.
  - rewrite (UseQuotaForData_cases Example.params _ 100 GasParamsOk_example
               Hlen (R 100 ltac:(lia))).
    vm_compute. reflexivity.
Defined.

(** *** DataGasCost over concatenation *)

Lemma nonZeroCount_app (a b : bytes) :
  nonZeroCount (a ++ b) = nonZeroCount a + nonZeroCount b.
Proof.
  unfold nonZeroCount. rewrite List.filter_app, length_app. lia.
Qed.

Lemma zeroCount_app (a b : bytes) :
  zeroCount (a ++ b) = zeroCount a + zeroCount b.
Proof.
  unfold zeroCount. rewrite List.filter_app, length_app. lia.
Qed.

Lemma dataCost_app (P : Params) (a b : bytes) :
  dataCost P (a ++ b) = dataCost P a + dataCost P b.
Proof.
  unfold dataCost. rewrite nonZeroCount_app, zeroCount_app. lia.
Qed.

(** X3.  With well-formed gas constants and [a ++ b] a slice: the cost of
    [a ++ b] is the cost of [b ++ a]; when [DataGasCost] succeeds on
    [a ++ b] it succeeds on [a] and on [b] and the cost of the whole is the
    sum of the two; when it overflows on [a] or on [b] it overflows on
    [a ++ b]. *)
Theorem DataGasCost_app (P : Params) (a b : bytes) :
  GasParamsOk P -> Z.of_nat (length (a ++ b)) <= maxSliceLen ->
  DataGasCost P (a ++ b) = DataGasCost P (b ++ a)
  /\ (forall c, DataGasCost P (a ++ b) = inl c ->
                exists ca cb, DataGasCost P a = inl ca
                              /\ DataGasCost P b = inl cb
                              /\ c = ca + cb)
  /\ (forall e, DataGasCost P a = inr e \/ DataGasCost P b = inr e ->
                DataGasCost P (a ++ b) = inr errGasUintOverflow).
Proof.
  intros Hok Hlen.
  assert (Hla : Z.of_nat (length a) <= maxSliceLen)
    by (rewrite length_app in Hlen; lia).
  assert (Hlb : Z.of_nat (length b) <= maxSliceLen)
    by (rewrite length_app in Hlen; lia).
  assert (Hlba : Z.of_nat (length (b ++ a)) <= maxSliceLen)
    by (rewrite length_app in *; lia).
  rewrite (DataGasCost_cases P (a ++ b) Hok Hlen),
          (DataGasCost_cases P (b ++ a) Hok Hlba),
          (DataGasCost_cases P a Hok Hla), (DataGasCost_cases P b Hok Hlb).
  rewrite !dataCost_app.
  pose proof (dataCost_range P a Hok). pose proof (dataCost_range P b Hok).
  split; [|split].
  - now rewrite Z.add_comm.
  - intros c Hc.
    destruct (Z.leb_spec (dataCost P a + dataCost P b) U64.MaxUint64);
      [|discriminate].
    injection Hc as <-. exists (dataCost P a), (dataCost P b).
    destruct (Z.leb_spec (dataCost P a) U64.MaxUint64); [|lia].
    destruct (Z.leb_spec (dataCost P b) U64.MaxUint64); [|lia].
    auto.
  - intros e [He|He].
    + destruct (Z.leb_spec (dataCost P a) U64.MaxUint64); [discriminate|].
      destruct (Z.leb_spec (dataCost P a + dataCost P b) U64.MaxUint64);
        [lia|reflexivity].
    + destruct (Z.leb_spec (dataCost P b) U64.MaxUint64); [discriminate|].
      destruct (Z.leb_spec (dataCost P a + dataCost P b) U64.MaxUint64);
        [lia|reflexivity].
Qed.

(** X3 on [01 00] and [02]: 72 and 68 make 140, in either order. *)
Lemma DataGasCost_app_witness :
  DataGasCost Example.params ([Byte.x01; Byte.x00] ++ [Byte.x02])
  = DataGasCost Example.params ([Byte.x02] ++ [Byte.x01; Byte.x00])
  /\ exists ca cb,
       DataGasCost Example.params [Byte.x01; Byte.x00] = inl ca
       /\ DataGasCost Example.params [Byte.x02] = inl cb
       /\ 140 = ca + cb.
Proof.
  destruct (DataGasCost_app Example.params [Byte.x01; Byte.x00] [Byte.x02]
              GasParamsOk_example ltac:(vm_compute; discriminate))
    as (Hcomm & Hsum & _).
  split; [exact Hcomm|]. apply Hsum. vm_compute. reflexivity.
Defined.

(** X4.  With well-formed gas constants, a cost that [DataGasCost] returns
    for a slice lies between the length times the zero-byte cost and the
    length times the non-zero-byte cost, and it is 0 only for the empty
    slice. *)
Theorem DataGasCost_bounds (P : Params) (data : bytes) (c : Z) :
  GasParamsOk P -> Z.of_nat (length data) <= maxSliceLen ->
  DataGasCost P data = inl c ->
  Z.of_nat (length data) * txDataZeroGas P <= c
  /\ c <= Z.of_nat (length data) * txDataNonZeroGas P
  /\ (c = 0 <-> data = []).
Proof.
  intros Hok Hlen Hc. rewrite (DataGasCost_cases P data Hok Hlen) in Hc.
  destruct (Z.leb_spec (dataCost P data) U64.MaxUint64); [|discriminate].
  injection Hc as <-. destruct Hok as (Hz & Hlt & _).
  pose proof (count_split data) as Hs.
  pose proof (count_nonneg data) as [Hn Hzc].
  unfold dataCost. repeat split; try nia.
  - intros H0. destruct data as [|b data]; [reflexivity|].
    cbn [length] in Hs. nia.
  - intros ->. reflexivity.
Qed.

(** X4 on [01 00 02]: the cost 140 lies between [3 * 4] and [3 * 68]. *)
Lemma DataGasCost_bounds_witness :
  3 * 4 <= 140 /\ 140 <= 3 * 68
  /\ (140 = 0 <-> [Byte.x01; Byte.x00; Byte.x02] = []).
Proof.
  exact (DataGasCost_bounds Example.params [Byte.x01; Byte.x00; Byte.x02] 140
           GasParamsOk_example ltac:(vm_compute; discriminate) eq_refl).
Defined.

(** *** CalcQuotaUsed *)

(** X5.  For [uint64] arguments with [quotaLeft <= quotaTotal] and
    [quotaAddition <= quotaTotal]: the quota used on success is at most the
    quota used on an error other than [ErrOutOfQuota], which is at most the
    quota used on [ErrOutOfQuota], which is [quotaTotal - quotaAddition];
    the refund takes off at most half, so that twice the quota used on
    success is at least the quota used on such an error; and when what was
    spent, [quotaTotal - quotaLeft], is less than [quotaAddition], success
    and such an error use no quota. *)
Theorem CalcQuotaUsed_order
  (quotaTotal quotaAddition quotaLeft quotaRefund : Z) (err : vmError) :
  U64.inRange quotaTotal -> U64.inRange quotaAddition ->
  U64.inRange quotaLeft -> U64.inRange quotaRefund ->
  quotaLeft <= quotaTotal -> quotaAddition <= quotaTotal ->
  err <> ErrOutOfQuota ->
  let onSuccess :=
    CalcQuotaUsed quotaTotal quotaAddition quotaLeft quotaRefund None in
  let onError :=
    CalcQuotaUsed quotaTotal quotaAddition quotaLeft quotaRefund (Some err) in
  let onOutOfQuota :=
    CalcQuotaUsed quotaTotal quotaAddition quotaLeft quotaRefund
      (Some ErrOutOfQuota) in
  0 <= onSuccess <= onError
  /\ onError <= onOutOfQuota
  /\ onOutOfQuota = quotaTotal - quotaAddition
  /\ onError <= 2 * onSuccess
  /\ (quotaTotal - quotaLeft < quotaAddition -> onError = 0).
Proof.
  unfold U64.inRange. intros Ht Ha Hl Hr Hlt Hat Herr. cbv zeta.
  assert (He : CalcQuotaUsed quotaTotal quotaAddition quotaLeft quotaRefund
                 (Some err)
               = if U64.sub quotaTotal quotaLeft <? quotaAddition then 0
                 else U64.sub (U64.sub quotaTotal quotaAddition) quotaLeft).
  { destruct err; [contradiction|reflexivity..]. }
  rewrite He. cbn [CalcQuotaUsed]. unfold U64.div. rewrite Min_spec.
  rewrite (sub_small quotaTotal quotaLeft) by lia.
  rewrite (sub_small quotaTotal quotaAddition) by lia.
  destruct (Z.ltb_spec (quotaTotal - quotaLeft) quotaAddition) as [Hfree|Hpaid].
  - lia.
  - rewrite (sub_small (quotaTotal - quotaAddition) quotaLeft) by lia.
    rewrite (sub_small (quotaTotal - quotaLeft) quotaAddition) by lia.
    assert (Hhalf : 0 <= (quotaTotal - quotaAddition - quotaLeft) / 2
                    /\ 2 * ((quotaTotal - quotaAddition - quotaLeft) / 2)
                       <= quotaTotal - quotaAddition - quotaLeft).
    { split; [apply Z.div_pos; lia|apply Z.mul_div_le; lia]. }
    rewrite sub_small by lia. lia.
Qed.

(** X5 at 100000 total, 21000 for PoW, 30000 left, 40000 refund accrued:
    24500 on success, 49000 on an overflow error, 79000 out of quota. *)
Lemma CalcQuotaUsed_order_witness :
  0 <= 24500 <= 49000 /\ 49000 <= 79000 /\ 79000 = 100000 - 21000
  /\ 49000 <= 2 * 24500 /\ (100000 - 30000 < 21000 -> 49000 = 0).
Proof.
  assert (R : forall z, 0 <= z < 1000000 -> U64.inRange z).
  { intros z Hz. unfold U64.inRange. rewrite modulus_eq. lia. }
  exact (CalcQuotaUsed_order 100000 21000 30000 40000 errGasUintOverflow
           (R 100000 ltac:(lia)) (R 21000 ltac:(lia)) (R 30000 ltac:(lia))
           (R 40000 ltac:(lia)) ltac:(lia) ltac:(lia) ltac:(discriminate)).
Defined.

(** *** The lookup in the section table, continued *)

Lemma getIndexInSection_correct (P : Params) (x : Q) :
  sectionList P <> [] -> strictlyIncreasing P ->
  exists i : Z,
    getIndexInSection P x = Returns i
    /\ 0 <= i < sectionCount P
    /\ ((sectionNth P 0 <= x)%Q -> largestIndexBelow P x i)
    /\ ((x < sectionNth P 0)%Q -> i = 0).
Proof.
  intros Hne Hsorted.
  destruct (getIndexInSection_bounds P x Hne) as (i & Hi & Hb).
  assert (Hpos : 0 < sectionCount P) by lia.
  destruct (getIndexInSectionRange_correct P Hsorted
              (S (length (sectionList P))) x 0 (sectionCount P - 1))
    as (i' & Hi' & Hge & Hlt); try (unfold sectionCount in *; lia).
  unfold getIndexInSection in Hi. fold (sectionCount P) in Hi.
  rewrite Hi' in Hi. injection Hi as ->.
  exists i. unfold getIndexInSection. fold (sectionCount P).
  split; [exact Hi'|]. split; [lia|]. split; assumption.
Qed.

(** X6.  Over a non-empty, strictly increasing table the lookup is
    monotone: for [x <= y] the index returned for [x] is at most the index
    returned for [y]. *)
Theorem getIndexInSection_monotone (P : Params) (x y : Q) :
  sectionList P <> [] -> strictlyIncreasing P -> (x <= y)%Q ->
  exists i j : Z,
    getIndexInSection P x = Returns i
    /\ getIndexInSection P y = Returns j
    /\ i <= j.
Proof.
  intros Hne Hsorted Hxy.
  destruct (getIndexInSection_correct P x Hne Hsorted)
    as (i & Hi & Hbi & Hgei & Hlti).
  destruct (getIndexInSection_correct P y Hne Hsorted)
    as (j & Hj & Hbj & Hgej & Hltj).
  exists i, j. split; [exact Hi|]. split; [exact Hj|].
  destruct (Qlt_le_dec x (sectionNth P 0)) as [Hlow|Hin].
  - rewrite (Hlti Hlow). lia.
  - destruct (Hgei Hin) as (_ & Hle & _).
    destruct (Hgej ltac:(lra)) as (_ & _ & Habove).
    destruct (Z_lt_le_dec j i) as [Hji|]; [|assumption].
    specialize (Habove i ltac:(lia)). lra.
Qed.

(** X6 on the table [0, 5, 20]: 7 falls in section 1 and 25 in section 2. *)
Lemma getIndexInSection_monotone_witness :
  exists i j : Z,
    getIndexInSection Example.params 7%Q = Returns i
    /\ getIndexInSection Example.params 25%Q = Returns j
    /\ i <= j.
Proof.
  apply (getIndexInSection_monotone Example.params 7%Q 25%Q).
  - discriminate.
  - exact strictlyIncreasing_example.
  - vm_compute. discriminate.
Defined.

(** X7.  Over a strictly increasing table, looking up the value of entry
    [i] returns [i]. *)
Theorem getIndexInSection_of_entry (P : Params) (i : nat) :
  strictlyIncreasing P -> (i < length (sectionList P))%nat ->
  getIndexInSection P (sectionNth P i) = Returns (Z.of_nat i).
Proof.
  intros Hsorted Hi.
  assert (Hne : sectionList P <> []).
  { destruct (sectionList P); [cbn in Hi; lia|discriminate]. }
  destruct (getIndexInSection_correct P (sectionNth P i) Hne Hsorted)
    as (r & Hr & Hb & Hge & _).
  rewrite Hr. f_equal.
  assert (H0 : (sectionNth P 0 <= sectionNth P i)%Q).
  { pose proof (section_le P Hsorted 0 (Z.of_nat i)) as Hm.
    rewrite Nat2Z.id in Hm. change (Z.to_nat 0) with 0%nat in Hm.
    apply Hm; unfold sectionCount; lia. }
  destruct (Hge H0) as (_ & Hle & Habove).
  unfold sectionCount in *.
  destruct (Z.lt_trichotomy r (Z.of_nat i)) as [Hlt|[Heq|Hgt]].
  - specialize (Habove (Z.of_nat i) ltac:(lia)).
    rewrite Nat2Z.id in Habove. lra.
  - exact Heq.
  - pose proof (section_lt P Hsorted (Z.of_nat i) r) as Hm.
    rewrite Nat2Z.id in Hm.
    specialize (Hm ltac:(lia) ltac:(lia) ltac:(unfold sectionCount; lia)).
    lra.
Qed.

(** X7 on the table [0, 5, 20]: the value 20 of entry 2 is found at 2. *)
Lemma getIndexInSection_of_entry_witness :
  getIndexInSection Example.params 20%Q = Returns 2.
Proof.
  exact (getIndexInSection_of_entry Example.params 2
           strictlyIncreasing_example ltac:(cbn; lia)).
Defined.

(** X8.  On an empty table the lookup panics (index out of range); on a
    non-empty table, sorted or not, it returns an index of the table. *)
Theorem getIndexInSection_in_table (P : Params) (x : Q) :
  (sectionList P = [] -> getIndexInSection P x = Panics)
  /\ (sectionList P <> [] ->
      exists i : Z, getIndexInSection P x = Returns i
                    /\ 0 <= i < sectionCount P).
Proof.
  split.
  - intros Hempty. unfold getIndexInSection. rewrite Hempty.
    cbn [length getIndexInSectionRange]. cbn.
    unfold sectionAt. now rewrite Hempty.
  - intros Hne. destruct (getIndexInSection_bounds P x Hne) as (i & Hi & Hb).
    exists i. split; [exact Hi|lia].
Qed.

(** X8 on a table without sections and on the table [9, 1, 4]. *)
Lemma getIndexInSection_in_table_witness :
  getIndexInSection QuotaExtra.emptyTableParams 3%Q = Panics
  /\ exists i : Z,
       getIndexInSection QuotaExtra.unsortedParams 3%Q = Returns i
       /\ 0 <= i < 3.
Proof.
  split.
  - exact (proj1 (getIndexInSection_in_table QuotaExtra.emptyTableParams 3%Q)
             eq_refl).
  - apply (proj2 (getIndexInSection_in_table QuotaExtra.unsortedParams 3%Q)).
    discriminate.
Defined.

End QuotaMore.

(* ================================================================== *)
(** ** More on CalcQuotaV2, CalcQuota and CalcQuotaV1 *)

Module CalcQuotaMore.
Import Ledger Quota QuotaExtra U64Facts QuotaFacts.

Section WithParams.
Context (P : Params).

Lemma sub_diag (q : Z) : U64.sub q q = 0.
Proof. unfold U64.sub. now rewrite Z.sub_diag. Qed.

(** *** Calls that claim no PoW quota *)

Lemma calcQuotaV2Exit_no_pow (db : quotaDb) (pledgeAmount : Z)
  (stop : option AccountBlock) (used difficulty total addition : Z) :
  calcQuotaV2Exit P db pledgeAmount false stop used difficulty
  = Returns (total, addition) ->
  addition = 0.
Proof.
  unfold calcQuotaV2Exit.
  match goal with
  | |- obind ?first _ = _ -> _ => destruct first as [[x q]| |]
  end; cbn [obind]; try discriminate.
  destruct (q <? used); intros [= <- <-]; [reflexivity|apply sub_diag].
Qed.

Lemma calcQuotaV2Loop_no_pow (fuel : nat) (db : quotaDb) (pledgeAmount : Z)
  (cur : Hash) :
  forall (b : option AccountBlock) (used : Z) (flag : bool)
         (difficulty total addition : Z),
    calcQuotaV2Loop P fuel db pledgeAmount false cur b used flag difficulty
    = Returns (total, addition) ->
    addition = 0.
Proof.
  induction fuel as [|fuel IH];
    intros b used flag difficulty total addition Hret; [discriminate|].
  cbn [calcQuotaV2Loop] in Hret.
  destruct b as [pb|]; [|now apply calcQuotaV2Exit_no_pow in Hret].
  destruct (hash_eqb cur (SnapshotHash pb));
    [|now apply calcQuotaV2Exit_no_pow in Hret].
  destruct (isReceiveError (BlockType_ pb)); [now injection Hret|].
  destruct (IsPoW (Nonce pb)); [now injection Hret|].
  now apply IH in Hret.
Qed.

End WithParams.

(** X9.  For a call of [CalcQuotaV2] whose difficulty is not positive,
    over a non-empty table and a non-negative [quotaForSection]: when the
    ledger has a current snapshot, the walk over the previous blocks ends
    within the fuel and the snapshot of the block it stops at is known,
    the call returns, and the PoW quota it returns is 0; without a current
    snapshot the call panics. *)
Theorem CalcQuotaV2_no_pow_addition (P : Params) (fuel : nat) (db : quotaDb)
  (addr : Address) (difficulty : Z) :
  sectionList P <> [] -> 0 <= quotaForSection P ->
  difficulty <= 0 ->
  (forall (cur : SnapshotBlock) (run : list AccountBlock)
          (stop : option AccountBlock),
      CurrentSnapshotBlock db = Some cur ->
      sameSnapshotRun fuel db (SbHash cur) (PrevAccountBlock db)
      = Some (run, stop) ->
      (forall pb, stop = Some pb ->
                  GetSnapshotBlockByHash db (SnapshotHash pb) <> None) ->
      exists total : Z,
        CalcQuotaV2 P fuel db addr difficulty = Returns (total, 0))
  /\ (CurrentSnapshotBlock db = None ->
      CalcQuotaV2 P fuel db addr difficulty = Panics).
Proof.
  intros Htable Hsection Hd. split.
  - intros cur run stop Hcur Hrun Hknown.
    rewrite (CalcQuotaV2_run P _ _ _ _ _ _ _ Hcur Hrun).
    destruct (existsb quickFails run); [now exists 0|].
    replace (0 <? Z.sgn difficulty) with false
      by (symmetry; apply Z.ltb_ge; lia).
    destruct (calcQuotaV2Exit_returns P Htable Hsection db
                (GetPledgeBeneficialAmount db addr) false stop
                (quotaUsedBy run) difficulty cur Hcur Hknown)
      as ([t a] & Hr).
    rewrite Hr. exists t.
    now rewrite (calcQuotaV2Exit_no_pow P _ _ _ _ _ _ _ Hr).
  - intros Hnone. unfold CalcQuotaV2. now rewrite Hnone.
Qed.

(** X9 on the example ledger: a call without PoW on top of a plain block
    gets [(20900, 0)]. *)
Lemma CalcQuotaV2_no_pow_addition_witness :
  exists total : Z,
    CalcQuotaV2 Example.params 5 (Example.ledger Example.block2plain)
      Example.account 0 = Returns (total, 0)
    /\ total = 20900.
Proof.
  destruct (proj1 (CalcQuotaV2_no_pow_addition Example.params 5
                     (Example.ledger Example.block2plain) Example.account 0
                     ltac:(discriminate) ltac:(vm_compute; discriminate)
                     ltac:(lia))
              Example.snapshot10 [Example.block2plain]
              (Some Example.block1) eq_refl
              ltac:(vm_compute; reflexivity)
              ltac:(intros pb [= <-]; vm_compute; discriminate))
    as [total Hrun].
  exists total. split; [exact Hrun|].
  assert (Hval : CalcQuotaV2 Example.params 5
                   (Example.ledger Example.block2plain) Example.account 0
                 = Returns (20900, 0)) by (vm_compute; reflexivity).
  rewrite Hval in Hrun. now injection Hrun as <-.
Defined.

(** X10.  On the first block of an account (no previous block), a call of
    [CalcQuotaV2] with a positive difficulty returns one and the same value
    as total and as PoW quota: the quantum of the section that
    [paramB * difficulty] falls in; the pledge plays no part. *)
Theorem CalcQuotaV2_first_block (P : Params) (fuel : nat) (db : quotaDb)
  (addr : Address) (difficulty : Z) (cur : SnapshotBlock) :
  sectionList P <> [] ->
  CurrentSnapshotBlock db = Some cur -> PrevAccountBlock db = None ->
  0 < difficulty ->
  exists q : Z,
    quotaOfSection P
      (floatAdd P 0%Q (floatMul P (floatSetInt P difficulty) (paramB P)))
    = Returns q
    /\ CalcQuotaV2 P (S fuel) db addr difficulty = Returns (q, q).
Proof.
  intros Htable Hcur Hprev Hd.
  destruct (getIndexInSection_bounds P
              (floatAdd P 0%Q
                 (floatMul P (floatSetInt P difficulty) (paramB P))) Htable)
    as (i & Hi & Hb).
  unfold CalcQuotaV2. rewrite Hcur, Hprev. cbn [calcQuotaV2Loop].
  unfold calcQuotaV2Exit. cbn [obind].
  replace (0 <? Z.sgn difficulty) with true
    by (symmetry; apply Z.ltb_lt; lia).
  unfold quotaOfSection. rewrite Hi. cbn [obind].
  eexists. split; [reflexivity|].
  pose proof (wrap_range (U64.wrap i * quotaForSection P)) as Hr.
  unfold U64.mul.
  destruct (Z.ltb_spec (U64.wrap (U64.wrap i * quotaForSection P)) 0);
    [lia|].
  unfold U64.sub. rewrite Z.sub_0_r. now rewrite (wrap_small _ Hr).
Qed.

(** X10 on an account without blocks: the default difficulty falls in
    section 1 of the table [0, 5, 20] and gives [(21000, 21000)]. *)
Lemma CalcQuotaV2_first_block_witness :
  CalcQuotaV2 Example.params 1 Example.emptyLedger Example.account
    defaultDifficulty = Returns (21000, 21000).
Proof.
  destruct (CalcQuotaV2_first_block Example.params 0 Example.emptyLedger
              Example.account defaultDifficulty Example.snapshot10
              ltac:(discriminate) eq_refl eq_refl ltac:(reflexivity))
    as (q & Hq & Hcall).
  assert (Hq' : q = 21000) by (vm_compute in Hq; congruence).
  now subst q.
Defined.

(** X11.  Over a non-empty table and a non-negative [quotaForSection]: a
    value [GetPledgeQuota] returns is the total of [CalcQuota] without PoW,
    whose PoW quota is 0, and lies between 0 and the ceiling of the table;
    and [CalcQuota] with PoW is [CalcQuotaV2] at the default difficulty. *)
Theorem GetPledgeQuota_spec (P : Params) (fuel : nat) (db : quotaDb)
  (beneficial : Address) (q : Z) :
  sectionList P <> [] -> 0 <= quotaForSection P ->
  GetPledgeQuota P fuel db beneficial = Returns q ->
  CalcQuota P fuel db beneficial false = Returns (q, 0)
  /\ 0 <= q <= quotaCeiling P
  /\ CalcQuota P fuel db beneficial true
     = CalcQuotaV2 P fuel db beneficial defaultDifficulty.
Proof.
  intros Htable Hsection Hq. unfold GetPledgeQuota in Hq.
  destruct (CalcQuota P fuel db beneficial false) as [[t a]| |] eqn:Hcalc;
    try discriminate.
  cbn in Hq. injection Hq as <-.
  unfold CalcQuota in Hcalc.
  unfold CalcQuotaV2 in Hcalc.
  destruct (CurrentSnapshotBlock db) as [cur|]; [|discriminate].
  change (0 <? Z.sgn 0) with false in Hcalc.
  pose proof (calcQuotaV2Loop_no_pow P _ _ _ _ _ _ _ _ _ _ Hcalc) as ->.
  split; [reflexivity|]. split; [|reflexivity].
  apply (calcQuotaV2Loop_bound P Htable Hsection) in Hcalc; lia.
Qed.

(** X11 on the example ledger: the pledge quota on top of a plain block
    that used 100 is 20900. *)
Lemma GetPledgeQuota_spec_witness :
  CalcQuota Example.params 5 (Example.ledger Example.block2plain)
    Example.account false = Returns (20900, 0)
  /\ 0 <= 20900 <= quotaCeiling Example.params.
Proof.
  destruct (GetPledgeQuota_spec Example.params 5
              (Example.ledger Example.block2plain) Example.account 20900
              ltac:(discriminate) ltac:(vm_compute; discriminate)
              ltac:(vm_compute; reflexivity)) as (H1 & H2 & _).
  split; assumption.
Defined.

End CalcQuotaMore.

(* ================================================================== *)
(** ** CalcQuotaV1 *)

Module CalcQuotaV1Facts.
Import Ledger Quota QuotaExtra U64Facts QuotaFacts.

Section WithParams.
Context (P : Params).

(** What the loop of [CalcQuotaV1] computes, by the run it walks. *)
Lemma calcQuotaV1Loop_run (fuel : nat) (db : quotaDb) (pow : bool)
  (cur : Hash) (quotaInitBig quotaAddition : Z) :
  forall (b : option AccountBlock) (used : Z) (run : list AccountBlock)
         (stop : option AccountBlock),
    sameSnapshotRun fuel db cur b = Some (run, stop) ->
    calcQuotaV1Loop P fuel db pow cur b used quotaInitBig quotaAddition
    = if existsb (quickFailsV1 pow) run then Returns (0, 0)
      else calcQuotaV1Exit P db quotaInitBig quotaAddition stop
             (fold_left addQuota run used).
Proof.
  induction fuel as [|fuel IH]; intros b used run stop Hrun; [discriminate|].
  cbn [sameSnapshotRun] in Hrun. cbn [calcQuotaV1Loop].
  destruct b as [pb|].
  - destruct (hash_eqb cur (SnapshotHash pb)).
    + destruct (sameSnapshotRun fuel db cur
                  (GetAccountBlockByHash db (PrevHash pb)))
        as [[run' stop']|] eqn:Hrest; [|discriminate].
      injection Hrun as <- <-. cbn [existsb fold_left].
      unfold quickFailsV1 at 1, IsPoW.
      destruct (isReceiveError (BlockType_ pb)
                || (0 <? Z.of_nat (length (Nonce pb))) && pow);
        [reflexivity|].
      cbn [orb]. apply (IH _ _ _ _ Hrest).
    + injection Hrun as <- <-. reflexivity.
  - injection Hrun as <- <-. reflexivity.
Qed.

Hypothesis Hlimit : U64.inRange (quotaLimit P).

(** The exit of [CalcQuotaV1] over the integers: the pledge share capped at
    the limit, less the quota used, plus the PoW quota as far as the limit
    allows. *)
Lemma calcQuotaV1Exit_bounds (db : quotaDb) (quotaInitBig quotaAddition : Z)
  (stop : option AccountBlock) (used total addition : Z) :
  0 <= quotaAddition <= quotaLimit P -> 0 <= used < U64.modulus ->
  calcQuotaV1Exit P db quotaInitBig quotaAddition stop used
  = Returns (total, addition) ->
  0 <= addition /\ addition <= total /\ total <= quotaLimit P
  /\ addition <= quotaAddition.
Proof.
  unfold U64.inRange in Hlimit. intros Hadd Hused. unfold calcQuotaV1Exit.
  match goal with
  | |- obind ?first _ = _ -> _ => destruct first as [init| |]
  end; cbn [obind]; try discriminate.
  cbv zeta.
  set (q0 := if U64.modulus <=? Z.abs init then quotaLimit P
             else U64.Min (Z.abs init) (quotaLimit P)).
  assert (Hq0 : 0 <= q0 <= quotaLimit P).
  { unfold q0. destruct (U64.modulus <=? Z.abs init); [lia|].
    rewrite Min_spec. lia. }
  destruct (Z.ltb_spec q0 used) as [Hless|Hge].
  - intros [= <- <-]. lia.
  - rewrite (sub_small q0 used) by lia.
    rewrite (sub_small (quotaLimit P) quotaAddition) by lia.
    destruct (Z.ltb_spec (quotaLimit P - quotaAddition) (q0 - used)).
    + rewrite sub_small by lia. intros [= <- <-]. lia.
    + rewrite add_small by lia. intros [= <- <-]. lia.
Qed.

Lemma calcQuotaV1Loop_bounds (fuel : nat) (db : quotaDb) (pow : bool)
  (cur : Hash) (quotaInitBig quotaAddition : Z) :
  0 <= quotaAddition <= quotaLimit P ->
  forall (b : option AccountBlock) (used total addition : Z),
    0 <= used < U64.modulus ->
    calcQuotaV1Loop P fuel db pow cur b used quotaInitBig quotaAddition
    = Returns (total, addition) ->
    0 <= addition /\ addition <= total /\ total <= quotaLimit P
    /\ addition <= quotaAddition.
Proof.
  intros Hadd.
  induction fuel as [|fuel IH]; intros b used total addition Hused Hret;
    [discriminate|].
  cbn [calcQuotaV1Loop] in Hret.
  destruct b as [pb|];
    [|now apply (calcQuotaV1Exit_bounds db quotaInitBig quotaAddition None
                   used)].
  destruct (hash_eqb cur (SnapshotHash pb));
    [|now apply (calcQuotaV1Exit_bounds db quotaInitBig quotaAddition
                   (Some pb) used)].
  destruct (isReceiveError (BlockType_ pb)
            || (0 <? Z.of_nat (length (Nonce pb))) && pow).
  - injection Hret as <- <-. unfold U64.inRange in Hlimit. lia.
  - apply IH in Hret; [exact Hret|apply wrap_range].
Qed.

End WithParams.

(** X12.  With [uint64] constants of which [quotaForPoW] is at most
    [quotaLimit]: a result of [CalcQuotaV1] has a total of at most
    [quotaLimit], a PoW quota between 0 and the total, at most [quotaForPoW],
    and 0 when the call claims no PoW. *)
Theorem CalcQuotaV1_bounds (P : Params) (fuel : nat) (db : quotaDb)
  (addr : Address) (pow : bool) (total addition : Z) :
  U64.inRange (quotaLimit P) -> 0 <= quotaForPoW P <= quotaLimit P ->
  CalcQuotaV1 P fuel db addr pow = Returns (total, addition) ->
  0 <= addition /\ addition <= total /\ total <= quotaLimit P
  /\ addition <= quotaForPoW P
  /\ (pow = false -> addition = 0).
Proof.
  intros Hlimit Hpow Hret. unfold CalcQuotaV1 in Hret.
  destruct (bigDiv _ _) as [init| |]; cbn [obind] in Hret; try discriminate.
  destruct (CurrentSnapshotBlock db) as [cur|]; [|discriminate].
  apply (calcQuotaV1Loop_bounds P Hlimit) in Hret.
  - destruct pow; [intuition (try discriminate; lia)|].
    destruct Hret as (H0 & H1 & H2 & H3). repeat split; lia.
  - unfold U64.inRange in Hlimit. destruct pow; lia.
  - rewrite modulus_eq. lia.
Qed.

(** X12 on the example ledger, limit 1000000 and 21000 for PoW: the call
    with PoW on an account of pledge 7 gets [(21007, 21000)]. *)
Lemma CalcQuotaV1_bounds_witness :
  CalcQuotaV1 Example.params 5 (Example.ledger Example.block1)
    Example.account true = Returns (21007, 21000)
  /\ 0 <= 21000 /\ 21000 <= 21007 /\ 21007 <= 1000000.
Proof.
  assert (Hrun : CalcQuotaV1 Example.params 5 (Example.ledger Example.block1)
                   Example.account true = Returns (21007, 21000))
    by (vm_compute; reflexivity).
  destruct (CalcQuotaV1_bounds Example.params 5
              (Example.ledger Example.block1) Example.account true
              21007 21000
              ltac:(vm_compute; split; [discriminate|reflexivity])
              ltac:(vm_compute; split; discriminate) Hrun)
    as (H0 & H1 & H2 & _).
  repeat split; assumption.
Defined.

(** X13.  When the walk over the previous blocks ends and [quotaByPledge]
    is not zero, [CalcQuotaV1] returns [(0, 0)] if a block of the run is a
    receive-error block, and also, for a call with PoW, if a block of the
    run carries a nonce; a call without PoW over a run without receive-error
    blocks is left to the exit computation on the quota the run used,
    whatever nonces the run carries. *)
Theorem CalcQuotaV1_quick_fail (P : Params) (fuel : nat) (db : quotaDb)
  (addr : Address) (pow : bool) (cur : SnapshotBlock)
  (run : list AccountBlock) (stop : option AccountBlock) :
  quotaByPledge P <> 0 ->
  CurrentSnapshotBlock db = Some cur ->
  sameSnapshotRun fuel db (SbHash cur) (PrevAccountBlock db)
  = Some (run, stop) ->
  (forall pb, In pb run -> BlockType_ pb = BlockTypeReceiveError ->
              CalcQuotaV1 P fuel db addr pow = Returns (0, 0))
  /\ (forall pb, pow = true -> In pb run -> Nonce pb <> [] ->
                 CalcQuotaV1 P fuel db addr pow = Returns (0, 0))
  /\ (pow = false ->
      (forall pb, In pb run -> BlockType_ pb <> BlockTypeReceiveError) ->
      CalcQuotaV1 P fuel db addr pow
      = calcQuotaV1Exit P db
          (Z.sgn (quotaByPledge P)
           * (GetPledgeBeneficialAmount db addr / Z.abs (quotaByPledge P)))
          0 stop (quotaUsedBy run)).
Proof.
  intros Hqbp Hcur Hrun.
  assert (Hcall : CalcQuotaV1 P fuel db addr pow
                  = if existsb (quickFailsV1 pow) run then Returns (0, 0)
                    else calcQuotaV1Exit P db
                           (Z.sgn (quotaByPledge P)
                            * (GetPledgeBeneficialAmount db addr
                               / Z.abs (quotaByPledge P)))
                           (if pow then quotaForPoW P else 0) stop
                           (quotaUsedBy run)).
  { unfold CalcQuotaV1, bigDiv.
    destruct (Z.eqb_spec (quotaByPledge P) 0) as [?|_]; [contradiction|].
    cbn [obind]. rewrite Hcur.
    now rewrite (calcQuotaV1Loop_run P _ _ _ _ _ _ _ _ _ _ Hrun). }
  rewrite Hcall. split; [|split].
  - intros pb Hin Herr.
    replace (existsb (quickFailsV1 pow) run) with true; [reflexivity|].
    symmetry. apply existsb_exists. exists pb. split; [exact Hin|].
    unfold quickFailsV1. now rewrite Herr.
  - intros pb -> Hin Hnonce.
    replace (existsb (quickFailsV1 true) run) with true; [reflexivity|].
    symmetry. apply existsb_exists. exists pb. split; [exact Hin|].
    unfold quickFailsV1, IsPoW. destruct (Nonce pb); [contradiction|].
    cbn [length]. rewrite orb_true_iff, andb_true_iff. right.
    split; [apply Z.ltb_lt; lia|reflexivity].
  - intros -> Hplain.
    replace (existsb (quickFailsV1 false) run) with false; [reflexivity|].
    symmetry. apply not_true_is_false. intros Hex.
    apply existsb_exists in Hex as (pb & Hin & Hq).
    unfold quickFailsV1 in Hq. rewrite andb_false_r, orb_false_r in Hq.
    apply (Hplain pb Hin). now destruct (BlockType_ pb).
Qed.

(** X13 on the example ledger whose newest block carries a nonce: the call
    with PoW gets [(0, 0)], the call without PoW its pledge share 7. *)
Lemma CalcQuotaV1_quick_fail_witness :
  CalcQuotaV1 Example.params 5 (Example.ledger Example.block2)
    Example.account true = Returns (0, 0)
  /\ CalcQuotaV1 Example.params 5 (Example.ledger Example.block2)
       Example.account false = Returns (7, 0).
Proof.
  split.
  - refine (proj1 (proj2 (CalcQuotaV1_quick_fail Example.params 5
                            (Example.ledger Example.block2) Example.account
                            true Example.snapshot10 [Example.block2]
                            (Some Example.block1) _ eq_refl _))
              Example.block2 eq_refl _ _).
    + vm_compute. discriminate.
    + vm_compute. reflexivity.
    + left. reflexivity.
    + discriminate.
  - rewrite (proj2 (proj2 (CalcQuotaV1_quick_fail Example.params 5
                             (Example.ledger Example.block2) Example.account
                             false Example.snapshot10 [Example.block2]
                             (Some Example.block1)
                             ltac:(vm_compute; discriminate) eq_refl
                             ltac:(vm_compute; reflexivity))) eq_refl).
    + vm_compute. reflexivity.
    + intros pb [<-|[]]. discriminate.
Defined.

(** X14.  On the first block of an account (no previous block), with a
    non-negative pledge, a positive [quotaByPledge] and [uint64] constants
    of which [quotaForPoW] is at most [quotaLimit]: [CalcQuotaV1] returns as
    total the pledge share [min(pledge / quotaByPledge, quotaLimit)] plus the
    PoW quota claimed, capped at [quotaLimit], and as PoW quota what the
    total has above the pledge share. *)
Theorem CalcQuotaV1_first_block (P : Params) (fuel : nat) (db : quotaDb)
  (addr : Address) (pow : bool) (cur : SnapshotBlock) :
  U64.inRange (quotaLimit P) -> 0 <= quotaForPoW P <= quotaLimit P ->
  0 < quotaByPledge P -> 0 <= GetPledgeBeneficialAmount db addr ->
  CurrentSnapshotBlock db = Some cur -> PrevAccountBlock db = None ->
  let share := pledgeShareV1 P (GetPledgeBeneficialAmount db addr) in
  let claimed := if pow then quotaForPoW P else 0 in
  CalcQuotaV1 P (S fuel) db addr pow
  = Returns (Z.min (share + claimed) (quotaLimit P),
             Z.min (share + claimed) (quotaLimit P) - share).
Proof.
  unfold U64.inRange. intros Hlimit Hpow Hqbp Hpledge Hcur Hprev. cbv zeta.
  unfold CalcQuotaV1, bigDiv, pledgeShareV1.
  destruct (Z.eqb_spec (quotaByPledge P) 0) as [?|_]; [lia|].
  cbn [obind]. rewrite Hcur, Hprev. cbn [calcQuotaV1Loop].
  unfold calcQuotaV1Exit. cbn [obind]. cbv zeta.
  rewrite (Z.sgn_pos (quotaByPledge P)) by lia.
  rewrite (Z.abs_eq (quotaByPledge P)) by lia.
  set (init := GetPledgeBeneficialAmount db addr / quotaByPledge P).
  assert (Hinit : 0 <= init) by (apply Z.div_pos; lia).
  replace (1 * init * 1) with init by lia.
  rewrite (Z.abs_eq init) by lia. rewrite Min_spec.
  set (claimed := if pow then quotaForPoW P else 0).
  assert (Hclaimed : 0 <= claimed <= quotaLimit P)
    by (unfold claimed; destruct pow; lia).
  assert (Hshare : (if U64.modulus <=? init then quotaLimit P
                    else Z.min init (quotaLimit P))
                   = Z.min init (quotaLimit P)).
  { destruct (Z.leb_spec U64.modulus init); lia. }
  rewrite Hshare.
  destruct (Z.ltb_spec (Z.min init (quotaLimit P)) 0); [lia|].
  rewrite (sub_small (Z.min init (quotaLimit P)) 0) by lia.
  rewrite Z.sub_0_r.
  rewrite (sub_small (quotaLimit P) claimed) by lia.
  destruct (Z.ltb_spec (quotaLimit P - claimed) (Z.min init (quotaLimit P))).
  - rewrite sub_small by lia. f_equal. f_equal; lia.
  - rewrite add_small by lia. f_equal. f_equal; lia.
Qed.

(** X14 on an account of pledge 7 without blocks: [(7, 0)] without PoW and
    [(21007, 21000)] with PoW. *)
Lemma CalcQuotaV1_first_block_witness :
  CalcQuotaV1 Example.params 1 (QuotaExtra.firstBlockLedger 7)
    Example.account false = Returns (7, 0)
  /\ CalcQuotaV1 Example.params 1 (QuotaExtra.firstBlockLedger 7)
       Example.account true = Returns (21007, 21000).
Proof.
  assert (Hlimit : U64.inRange (quotaLimit Example.params))
    by (vm_compute; split; [discriminate|reflexivity]).
  assert (Hpow : 0 <= quotaForPoW Example.params
                 <= quotaLimit Example.params)
    by (vm_compute; split; discriminate).
  split.
  - exact (CalcQuotaV1_first_block Example.params 0
             (QuotaExtra.firstBlockLedger 7) Example.account false
             Example.snapshot10 Hlimit Hpow eq_refl
             ltac:(vm_compute; discriminate) eq_refl eq_refl).
  - exact (CalcQuotaV1_first_block Example.params 0
             (QuotaExtra.firstBlockLedger 7) Example.account true
             Example.snapshot10 Hlimit Hpow eq_refl
             ltac:(vm_compute; discriminate) eq_refl eq_refl).
Defined.

End CalcQuotaV1Facts.

(* ================================================================== *)
(** ** More on the storage facade *)

Module VmDbMore.
Import VmDb VmDbExtra.

Lemma GetValue_SetValue_eq (db : vmDb) (key value : bytes) :
  GetValue (SetValue db key value) key = inl value.
Proof.
  unfold GetValue, SetValue, Unsaved_GetValue, Unsaved_SetValue. cbn.
  now rewrite lookup_insert_eq.
Qed.

Lemma GetValue_SetValue_ne (db : vmDb) (key key' value : bytes) :
  key <> key' -> GetValue (SetValue db key value) key' = GetValue db key'.
Proof.
  intros Hne. unfold GetValue, GetOriginalValue, SetValue, Unsaved_GetValue,
    Unsaved_SetValue. cbn. now rewrite lookup_insert_ne.
Qed.

(** X15.  After a run of [SetValue] calls, [GetValue] of a key returns the
    value of the last write to that key in the run, and for a key the run
    did not write what [GetValue] returned before the run; the run leaves
    [GetOriginalValue] of every key as it was. *)
Theorem GetValue_applyWrites (db : vmDb) (writes : list (bytes * bytes))
  (key : bytes) :
  GetValue (applyWrites db writes) key
  = match lastWrite key writes with
    | Some value => inl value
    | None => GetValue db key
    end
  /\ GetOriginalValue (applyWrites db writes) key = GetOriginalValue db key.
Proof.
  unfold applyWrites, lastWrite.
  split.
  - rewrite <- (rev_involutive writes).
    induction (rev writes) as [|w ws IH]; [reflexivity|].
    cbn [rev]. rewrite !fold_left_app. cbn [fold_left].
    destruct (bool_decide (fst w = key)) eqn:Hk.
    + apply bool_decide_eq_true_1 in Hk. subst key.
      apply GetValue_SetValue_eq.
    + apply bool_decide_eq_false_1 in Hk.
      rewrite GetValue_SetValue_ne by exact Hk. exact IH.
  - revert db. induction writes as [|w ws IH]; intros db; [reflexivity|].
    cbn [fold_left]. now rewrite IH.
Qed.

(** X16.  Writing the same key twice leaves the state of the second write
    alone, a delete after a write leaves the state of the delete alone, and
    writes to two different keys give the same state in either order. *)
Theorem SetValue_order (db : vmDb) (k1 k2 v1 v2 : bytes) :
  SetValue (SetValue db k1 v1) k1 v2 = SetValue db k1 v2
  /\ DeleteValue (SetValue db k1 v1) k1 = DeleteValue db k1
  /\ (k1 <> k2 ->
      SetValue (SetValue db k1 v1) k2 v2
      = SetValue (SetValue db k2 v2) k1 v1).
Proof.
  unfold SetValue, DeleteValue, Unsaved_SetValue. cbn. repeat split.
  - now rewrite insert_insert_eq.
  - now rewrite insert_insert_eq.
  - intros Hne. now rewrite insert_insert_ne.
Qed.

(** X16 on the keys [01] and [02]. *)
Lemma SetValue_order_witness :
  let db := mkVmDb (mkUnsaved ∅)
              (inl (mkStateSnapshot (fun _ => inl [Byte.x07]))) in
  SetValue (SetValue db [Byte.x01] [Byte.x09]) [Byte.x02] [Byte.x08]
  = SetValue (SetValue db [Byte.x02] [Byte.x08]) [Byte.x01] [Byte.x09].
Proof.
  intros db.
  apply (proj2 (proj2 (SetValue_order db [Byte.x01] [Byte.x02] [Byte.x09]
                         [Byte.x08]))).
  discriminate.
Defined.

(** X17.  When the previous snapshot cannot be loaded, [GetOriginalValue]
    fails with that error for every key, [GetValue] fails with it for a key
    the overlay does not hold, and [GetValue] still succeeds for every key
    written or deleted in the overlay; when the snapshot loads but fails to
    read a key the overlay does not hold, [GetValue] returns its error. *)
Theorem GetValue_errors (db : vmDb) (key value : bytes) :
  (forall err, getPrevStateSnapshot db = inr err ->
     GetOriginalValue db key = inr err
     /\ (Unsaved_GetValue (unsaved db) key = None ->
         GetValue db key = inr err)
     /\ GetValue (SetValue db key value) key = inl value
     /\ GetValue (DeleteValue db key) key = inl [])
  /\ (forall snapshot err,
        getPrevStateSnapshot db = inl snapshot ->
        Snapshot_GetValue snapshot key = inr err ->
        Unsaved_GetValue (unsaved db) key = None ->
        GetValue db key = inr err).
Proof.
  split.
  - intros err Hsnap. split; [|split; [|split]].
    + unfold GetOriginalValue. now rewrite Hsnap.
    + intros Hmiss. unfold GetValue, GetOriginalValue.
      now rewrite Hmiss, Hsnap.
    + apply GetValue_SetValue_eq.
    + apply (GetValue_SetValue_eq db key []).
  - intros snapshot err Hsnap Hread Hmiss.
    unfold GetValue, GetOriginalValue. now rewrite Hmiss, Hsnap.
Qed.

(** X17 on a database whose snapshot cannot be loaded. *)
Lemma GetValue_errors_witness :
  let db := mkVmDb (mkUnsaved ∅) (inr ErrSnapshotUnavailable) in
  GetValue db [Byte.x01] = inr ErrSnapshotUnavailable
  /\ GetValue (SetValue db [Byte.x01] [Byte.x09]) [Byte.x01]
     = inl [Byte.x09].
Proof.
  intros db.
  destruct (proj1 (GetValue_errors db [Byte.x01] [Byte.x09])
              ErrSnapshotUnavailable eq_refl) as (_ & Hmiss & Hset & _).
  split; [apply Hmiss; reflexivity|exact Hset].
Defined.

End VmDbMore.

(* ================================================================== *)
(** ** The subscription API *)

Module FiltersFacts.
Import Ledger Filters.

Lemma updateFilter_lookup (s : SubscribeApi) (id : ID) (f : filter) :
  filterMap (updateFilter s id f) !! id = Some f.
Proof. cbn. apply lookup_insert_eq. Qed.

Lemma deliverBlocks_lookup (batches : list (list AccountBlockMsg)) :
  forall (s : SubscribeApi) (id : ID) (f : filter),
    filterMap s !! id = Some f ->
    filterMap (deliverBlocks s id batches) !! id
    = Some (mkFilter (typ f) (deadline f) (blocks f ++ concat batches)
              (confirmedBlocks f) (logs f) (confirmedLogs f)).
Proof.
  unfold deliverBlocks.
  induction batches as [|ac batches IH]; intros s id f Hf.
  - cbn. rewrite app_nil_r. now destruct f.
  - cbn [fold_left concat]. unfold onAccountBlocks at 2. rewrite Hf.
    rewrite (IH _ id _ (updateFilter_lookup s id _)). cbn.
    now rewrite <- app_assoc.
Qed.

Lemma deliverLogs_lookup (batches : list (list LogsMsg)) :
  forall (s : SubscribeApi) (id : ID) (f : filter),
    filterMap s !! id = Some f ->
    filterMap (deliverLogs s id batches) !! id
    = Some (mkFilter (typ f) (deadline f) (blocks f) (confirmedBlocks f)
              (logs f ++ concat batches) (confirmedLogs f)).
Proof.
  unfold deliverLogs.
  induction batches as [|l batches IH]; intros s id f Hf.
  - cbn. rewrite app_nil_r. now destruct f.
  - cbn [fold_left concat]. unfold onLogs at 2. rewrite Hf.
    rewrite (IH _ id _ (updateFilter_lookup s id _)). cbn.
    now rewrite <- app_assoc.
Qed.

Lemma GetFilterChanges_blocks (s : SubscribeApi) (id : ID) (f : filter) :
  filterMap s !! id = Some f -> typ f = AccountBlocksSubscription ->
  GetFilterChanges s id
  = (inl (BlockChanges (blocks f)),
     updateFilter s id
       (mkFilter AccountBlocksSubscription TimerRunning []
          (confirmedBlocks f) (logs f) (confirmedLogs f))).
Proof. intros Hf Ht. unfold GetFilterChanges. now rewrite Hf, Ht. Qed.

Lemma GetFilterChanges_logs (s : SubscribeApi) (id : ID) (f : filter) :
  filterMap s !! id = Some f -> typ f = LogsSubscription ->
  GetFilterChanges s id
  = (inl (LogChanges (logs f)),
     updateFilter s id
       (mkFilter LogsSubscription TimerRunning (blocks f)
          (confirmedBlocks f) [] (confirmedLogs f))).
Proof. intros Hf Ht. unfold GetFilterChanges. now rewrite Hf, Ht. Qed.

(** X18.  For an installed filter of type [AccountBlocksSubscription]:
    after batches of account-block messages have arrived,
    [GetFilterChanges] returns the messages the filter held followed by the
    batches in their order of arrival, and a later call returns exactly the
    batches that arrived in between (none, if none arrived).  The same holds
    for a filter of type [LogsSubscription] and batches of log messages. *)
Theorem GetFilterChanges_drains (s : SubscribeApi) (id : ID) (f : filter) :
  filterMap s !! id = Some f ->
  (typ f = AccountBlocksSubscription ->
   forall batches more : list (list AccountBlockMsg),
     let polled := GetFilterChanges (deliverBlocks s id batches) id in
     fst polled = inl (BlockChanges (blocks f ++ concat batches))
     /\ fst (GetFilterChanges (deliverBlocks (snd polled) id more) id)
        = inl (BlockChanges (concat more)))
  /\ (typ f = LogsSubscription ->
      forall batches more : list (list LogsMsg),
        let polled := GetFilterChanges (deliverLogs s id batches) id in
        fst polled = inl (LogChanges (logs f ++ concat batches))
        /\ fst (GetFilterChanges (deliverLogs (snd polled) id more) id)
           = inl (LogChanges (concat more))).
Proof.
  intros Hf. split; intros Htyp batches more; cbv zeta.
  - rewrite (GetFilterChanges_blocks _ id _
               (deliverBlocks_lookup batches s id f Hf) Htyp).
    cbn [fst snd blocks]. split; [reflexivity|].
    erewrite GetFilterChanges_blocks;
      [|apply deliverBlocks_lookup, updateFilter_lookup|reflexivity].
    reflexivity.
  - rewrite (GetFilterChanges_logs _ id _
               (deliverLogs_lookup batches s id f Hf) Htyp).
    cbn [fst snd logs]. split; [reflexivity|].
    erewrite GetFilterChanges_logs;
      [|apply deliverLogs_lookup, updateFilter_lookup|reflexivity].
    reflexivity.
Qed.

(** X18 on a fresh account-block filter: two batches of one and two
    messages are handed out together, in order; the next call hands out
    nothing. *)
Lemma GetFilterChanges_drains_witness :
  let m1 := mkAccountBlockMsg [Byte.x01] false in
  let m2 := mkAccountBlockMsg [Byte.x02] false in
  let m3 := mkAccountBlockMsg [Byte.x03] true in
  let s := installFilter NewSubscribeApi "f1"%string
             AccountBlocksSubscription in
  let polled := GetFilterChanges (deliverBlocks s "f1"%string [[m1]; [m2; m3]])
                  "f1"%string in
  fst polled = inl (BlockChanges [m1; m2; m3])
  /\ fst (GetFilterChanges (snd polled) "f1"%string) = inl (BlockChanges []).
Proof.
  intros m1 m2 m3 s polled.
  destruct (proj1 (GetFilterChanges_drains s "f1"%string
                     (mkFilter AccountBlocksSubscription TimerRunning [] [] []
                        [])
                     ltac:(apply lookup_insert_eq))
              eq_refl [[m1]; [m2; m3]] []) as [H1 H2].
  split; [exact H1|exact H2].
Defined.

(** X19.  [GetFilterChanges] on an installed filter, of whatever type,
    leaves the filter installed with its type, its timer running and its
    confirmed blocks and confirmed logs as they were; on a filter whose type
    is neither [AccountBlocksSubscription] nor [LogsSubscription] it reports
    [ErrFilterNotFound] although the filter is there, and leaves its blocks
    and logs as they were too. *)
Theorem GetFilterChanges_keeps_confirmed (s : SubscribeApi) (id : ID)
  (f : filter) :
  filterMap s !! id = Some f ->
  exists f' : filter,
    filterMap (snd (GetFilterChanges s id)) !! id = Some f'
    /\ typ f' = typ f
    /\ deadline f' = TimerRunning
    /\ confirmedBlocks f' = confirmedBlocks f
    /\ confirmedLogs f' = confirmedLogs f
    /\ (typ f <> AccountBlocksSubscription -> typ f <> LogsSubscription ->
        fst (GetFilterChanges s id) = inr ErrFilterNotFound
        /\ blocks f' = blocks f /\ logs f' = logs f).
Proof.
  intros Hf. unfold GetFilterChanges. rewrite Hf.
  destruct (typ f) eqn:Ht; cbn [fst snd]; eexists;
    (split; [apply updateFilter_lookup|]); cbn;
    repeat split; try reflexivity; try congruence.
Qed.

(** X19 on a filter of another type that holds a confirmed block: the call
    reports [ErrFilterNotFound] and the confirmed block stays. *)
Lemma GetFilterChanges_keeps_confirmed_witness :
  let c := mkConfirmedAccountBlockMsg [[Byte.x01]] [Byte.x0a] false in
  let s := onConfirmedAccountBlocks
             (installFilter NewSubscribeApi "f2"%string (OtherSubscription 2))
             "f2"%string [c] in
  fst (GetFilterChanges s "f2"%string) = inr ErrFilterNotFound
  /\ exists f' : filter,
       filterMap (snd (GetFilterChanges s "f2"%string)) !! "f2"%string
       = Some f'
       /\ confirmedBlocks f' = [c].
Proof.
  intros c s.
  destruct (GetFilterChanges_keeps_confirmed s "f2"%string
              (mkFilter (OtherSubscription 2) TimerRunning [] [c] [] [])
              ltac:(vm_compute; reflexivity))
    as (f' & Hf' & _ & _ & Hcb & _ & Hother).
  split.
  - apply Hother; discriminate.
  - exists f'. split; [exact Hf'|exact Hcb].
Defined.

(** X20.  [UninstallFilter] on an id that is not installed returns [false]
    and changes nothing.  On an installed id it returns [true], removes that
    filter and no other, and unsubscribes it once; afterwards a second
    [UninstallFilter] returns [false], [GetFilterChanges] reports
    [ErrFilterNotFound], and messages arriving for the id are dropped. *)
Theorem UninstallFilter_spec (s : SubscribeApi) (id : ID) :
  (filterMap s !! id = None -> UninstallFilter s id = (false, s))
  /\ (forall f : filter, filterMap s !! id = Some f ->
        let s' := snd (UninstallFilter s id) in
        fst (UninstallFilter s id) = true
        /\ filterMap s' !! id = None
        /\ (forall id', id' <> id -> filterMap s' !! id' = filterMap s !! id')
        /\ unsubscribed s' = unsubscribed s ++ [id]
        /\ UninstallFilter s' id = (false, s')
        /\ GetFilterChanges s' id = (inr ErrFilterNotFound, s')
        /\ (forall ac, onAccountBlocks s' id ac = s')
        /\ (forall l, onLogs s' id l = s')).
Proof.
  split.
  - intros Hnone. unfold UninstallFilter. now rewrite Hnone.
  - intros f Hf. cbv zeta.
    assert (Hun : UninstallFilter s id
                  = (true, mkSubscribeApi (delete id (filterMap s))
                             (unsubscribed s ++ [id])))
      by (unfold UninstallFilter; now rewrite Hf).
    rewrite !Hun. cbn [fst snd].
    set (s' := mkSubscribeApi (delete id (filterMap s))
                 (unsubscribed s ++ [id])).
    assert (Hgone : filterMap s' !! id = None) by apply lookup_delete_eq.
    split; [reflexivity|]. split; [exact Hgone|].
    split; [intros id' Hne; apply lookup_delete_ne; congruence|].
    split; [reflexivity|].
    unfold UninstallFilter, GetFilterChanges, onAccountBlocks, onLogs.
    rewrite Hgone. repeat split; reflexivity.
Qed.

(** X20 on two installed filters: uninstalling the first leaves the
    second. *)
Lemma UninstallFilter_spec_witness :
  let s := installFilter
             (installFilter NewSubscribeApi "f1"%string
                AccountBlocksSubscription)
             "f2"%string LogsSubscription in
  fst (UninstallFilter s "f1"%string) = true
  /\ filterMap (snd (UninstallFilter s "f1"%string)) !! "f1"%string = None
  /\ filterMap (snd (UninstallFilter s "f1"%string)) !! "f2"%string
     = filterMap s !! "f2"%string.
Proof.
  intros s.
  destruct (proj2 (UninstallFilter_spec s "f1"%string)
              (mkFilter AccountBlocksSubscription TimerRunning [] [] [] [])
              ltac:(vm_compute; reflexivity))
    as (H1 & H2 & H3 & _).
  split; [exact H1|]. split; [exact H2|]. apply H3. discriminate.
Defined.

Lemma GetFilterChanges_running (s : SubscribeApi) (id : ID) (f : filter) :
  filterMap s !! id = Some f ->
  exists f' : filter,
    filterMap (snd (GetFilterChanges s id)) !! id = Some f'
    /\ deadline f' = TimerRunning.
Proof.
  intros Hf. unfold GetFilterChanges. rewrite Hf.
  destruct (typ f); cbn [snd]; eexists;
    (split; [apply updateFilter_lookup|reflexivity]).
Qed.

Lemma timeoutRound_keeps (s : SubscribeApi) (id : ID) (f : filter) :
  filterMap s !! id = Some f -> deadline f = TimerRunning ->
  filterMap (timeoutRound s) !! id = Some f.
Proof.
  intros Hf Hd. cbn. apply map_lookup_filter_Some_2; [exact Hf|].
  cbn. unfold fired. now rewrite Hd.
Qed.

(** X21.  One round of the timeout loop removes and unsubscribes an
    installed filter whose timer has fired, and leaves a filter whose timer
    is running as it is, without unsubscribing it; a filter polled with
    [GetFilterChanges] after its timer fired survives the next round. *)
Theorem timeoutRound_spec (s : SubscribeApi) (id : ID) (f : filter) :
  filterMap s !! id = Some f ->
  (deadline f = TimerFired ->
   filterMap (timeoutRound s) !! id = None
   /\ In id (unsubscribed (timeoutRound s)))
  /\ (deadline f = TimerRunning ->
      filterMap (timeoutRound s) !! id = Some f
      /\ (~ In id (unsubscribed s) ->
          ~ In id (unsubscribed (timeoutRound s))))
  /\ filterMap
       (timeoutRound (snd (GetFilterChanges (timerFires s id) id))) !! id
     <> None.
Proof.
  intros Hf. split; [|split].
  - intros Hd. split.
    + cbn. apply map_lookup_filter_None_2. right. intros x Hx.
      rewrite Hf in Hx. injection Hx as <-. cbn. unfold fired.
      rewrite Hd. discriminate.
    + cbn. apply in_or_app. right. apply in_map_iff.
      exists (id, f). split; [reflexivity|]. apply filter_In. split.
      * apply list_elem_of_In, elem_of_map_to_list. exact Hf.
      * cbn. unfold fired. now rewrite Hd.
  - intros Hd. split; [now apply timeoutRound_keeps|].
    intros Hnot Hin. cbn in Hin. apply in_app_or in Hin as [Hin|Hin];
      [contradiction|].
    apply in_map_iff in Hin as ([id' x] & Hid & Hin). cbn in Hid. subst id'.
    apply filter_In in Hin as [Hin Hfired].
    apply list_elem_of_In, elem_of_map_to_list in Hin.
    rewrite Hf in Hin. injection Hin as <-.
    cbn in Hfired. unfold fired in Hfired. now rewrite Hd in Hfired.
  - assert (Hfired : filterMap (timerFires s id) !! id
                     = Some (mkFilter (typ f) TimerFired (blocks f)
                               (confirmedBlocks f) (logs f)
                               (confirmedLogs f))).
    { unfold timerFires. rewrite Hf. apply updateFilter_lookup. }
    destruct (GetFilterChanges_running _ id _ Hfired) as (f' & Hf' & Hrun).
    now rewrite (timeoutRound_keeps _ id f' Hf' Hrun).
Qed.

(** X21 on two filters of which the first has fired: the round removes the
    first and keeps the second. *)
Lemma timeoutRound_spec_witness :
  let s := timerFires
             (installFilter
                (installFilter NewSubscribeApi "f1"%string
                   AccountBlocksSubscription)
                "f2"%string LogsSubscription)
             "f1"%string in
  filterMap (timeoutRound s) !! "f1"%string = None
  /\ In "f1"%string (unsubscribed (timeoutRound s))
  /\ filterMap (timeoutRound s) !! "f2"%string
     = Some (mkFilter LogsSubscription TimerRunning [] [] [] []).
Proof.
  intros s.
  destruct (proj1 (timeoutRound_spec s "f1"%string
                     (mkFilter AccountBlocksSubscription TimerFired [] [] []
                        [])
                     ltac:(vm_compute; reflexivity)) eq_refl) as [H1 H2].
  destruct (proj1 (proj2 (timeoutRound_spec s "f2"%string
                            (mkFilter LogsSubscription TimerRunning [] [] []
                               [])
                            ltac:(vm_compute; reflexivity))) eq_refl)
    as [H3 _].
  split; [exact H1|]. split; [exact H2|exact H3].
Defined.

(** *** Filter parameters *)

Section Parsing.
Context (StringToUint64 : string -> Z + apiError)
        (HexToAddress : string -> Address + apiError).

#[local] Abbreviation loop := (addrRangeLoop StringToUint64 HexToAddress).
#[local] Abbreviation parses := (entryParses StringToUint64 HexToAddress).

Lemma addrRangeLoop_ok (entries : list (string * option Range)) :
  forall acc : gmap Address heightRange,
    Forall parses entries -> exists m, loop entries acc = inl m.
Proof.
  induction entries as [|[hex r] entries IH]; intros acc Hall.
  - now exists acc.
  - inversion Hall as [|e es [[hr Hhr] [addr Haddr]] Hrest]; subst.
    cbn in Hhr, Haddr. cbn [addrRangeLoop]. rewrite Hhr, Haddr.
    apply IH, Hrest.
Qed.

Lemma addrRangeLoop_inv (entries : list (string * option Range)) :
  forall (acc m : gmap Address heightRange),
    loop entries acc = inl m ->
    Forall parses entries
    /\ (forall addr, is_Some (acc !! addr) -> is_Some (m !! addr))
    /\ (forall hex r addr,
          In (hex, r) entries -> HexToAddress hex = inl addr ->
          is_Some (m !! addr))
    /\ (forall addr hr,
          m !! addr = Some hr ->
          acc !! addr = Some hr
          \/ exists hex r parsed,
               In (hex, r) entries
               /\ HexToAddress hex = inl addr
               /\ toHeightRange StringToUint64 r = inl parsed
               /\ hr = default (mkHeightRange 0 0) parsed).
Proof.
  induction entries as [|[hex r] entries IH]; intros acc m Hloop.
  - injection Hloop as <-. repeat split.
    + constructor.
    + auto.
    + intros ? ? ? [].
    + auto.
  - cbn [addrRangeLoop] in Hloop.
    destruct (toHeightRange StringToUint64 r) as [parsed|e] eqn:Hhr;
      [|discriminate].
    destruct (HexToAddress hex) as [addr0|e] eqn:Haddr; [|discriminate].
    destruct (IH _ _ Hloop) as (Hall & Hkeep & Hkeys & Hvals).
    split; [|split; [|split]].
    + constructor; [|exact Hall]. split; cbn; eauto.
    + intros addr Hsome. apply Hkeep.
      destruct (decide (addr0 = addr)) as [->|Hne].
      * rewrite lookup_insert_eq. eauto.
      * now rewrite lookup_insert_ne.
    + intros hex' r' addr [Heq|Hin] Hparse.
      * injection Heq as <- <-. rewrite Haddr in Hparse.
        injection Hparse as <-. apply Hkeep.
        rewrite lookup_insert_eq. eauto.
      * now apply (Hkeys hex' r').
    + intros addr hr Hm. destruct (Hvals addr hr Hm) as [Hacc|Hfrom].
      * destruct (decide (addr0 = addr)) as [->|Hne].
        -- rewrite lookup_insert_eq in Hacc. injection Hacc as <-.
           right. exists hex, r, parsed. cbn. auto.
        -- rewrite lookup_insert_ne in Hacc by exact Hne. now left.
      * destruct Hfrom as (hex' & r' & parsed' & Hin & H1 & H2 & H3).
        right. exists hex', r', parsed'. cbn. auto.
Qed.

(** X22.  [toFilterParam] succeeds exactly when the snapshot range parses,
    [AddrRange] has an entry, and every entry has a range and an address
    that parse, in whatever order the entries are visited.  The parameter it
    then returns carries the parsed snapshot range and the topics and hashes
    of the request; its address ranges are keyed by the addresses of the
    entries and by no others, and each holds the parsed range of an entry
    with that address, [{0, 0}] when the entry has no range. *)
Theorem toFilterParam_spec (p : RpcFilterParam) :
  ((exists fp, toFilterParam StringToUint64 HexToAddress p = inl fp)
   <-> (exists hr, toHeightRange StringToUint64 (SnapshotRange p) = inl hr)
       /\ AddrRange p <> []
       /\ Forall parses (AddrRange p))
  /\ (forall fp,
        toFilterParam StringToUint64 HexToAddress p = inl fp ->
        toHeightRange StringToUint64 (SnapshotRange p)
        = inl (snapshotRange fp)
        /\ topics fp = RpcTopics p
        /\ accountHash fp = AccountHash p
        /\ snapshotHash fp = RpcSnapshotHash p
        /\ (forall addr,
              is_Some (addrRange fp !! addr)
              <-> exists hex r, In (hex, r) (AddrRange p)
                                /\ HexToAddress hex = inl addr)
        /\ (forall addr hr,
              addrRange fp !! addr = Some hr ->
              exists hex r parsed,
                In (hex, r) (AddrRange p)
                /\ HexToAddress hex = inl addr
                /\ toHeightRange StringToUint64 r = inl parsed
                /\ hr = default (mkHeightRange 0 0) parsed)).
Proof.
  unfold toFilterParam. split.
  - split.
    + intros [fp Hfp].
      destruct (toHeightRange StringToUint64 (SnapshotRange p)) as [hr|e];
        [|discriminate].
      destruct (AddrRange p) as [|e0 es] eqn:Hentries; [discriminate|].
      cbn [length] in Hfp.
      destruct (Z.eqb_spec (Z.of_nat (S (length es))) 0); [lia|].
      destruct (loop (e0 :: es) ∅) as [m|e] eqn:Hloop; [|discriminate].
      split; [eauto|]. split; [discriminate|].
      now destruct (addrRangeLoop_inv _ _ _ Hloop).
    + intros ([hr Hhr] & Hne & Hall). rewrite Hhr.
      destruct (AddrRange p) as [|e0 es] eqn:Hentries; [contradiction|].
      cbn [length].
      destruct (Z.eqb_spec (Z.of_nat (S (length es))) 0); [lia|].
      destruct (addrRangeLoop_ok (e0 :: es) ∅ Hall) as [m Hm].
      rewrite Hm. eauto.
  - intros fp Hfp.
    destruct (toHeightRange StringToUint64 (SnapshotRange p)) as [hr|e];
      [|discriminate].
    destruct (Z.of_nat (length (AddrRange p)) =? 0); [discriminate|].
    destruct (loop (AddrRange p) ∅) as [m|e] eqn:Hloop; [|discriminate].
    injection Hfp as <-. cbn.
    destruct (addrRangeLoop_inv _ _ _ Hloop) as (_ & _ & Hkeys & Hvals).
    repeat split; try reflexivity.
    + intros [hr' Hm]. destruct (Hvals addr hr' Hm) as [Hempty|Hfrom].
      * now rewrite lookup_empty in Hempty.
      * destruct Hfrom as (hex & r & _ & Hin & Haddr & _). eauto.
    + intros (hex & r & Hin & Haddr). exact (Hkeys hex r addr Hin Haddr).
    + intros addr hr' Hm. destruct (Hvals addr hr' Hm) as [Hempty|Hfrom].
      * now rewrite lookup_empty in Hempty.
      * exact Hfrom.
Qed.

End Parsing.

(** X22 on a request with two addresses, one of them without a range. *)
Lemma toFilterParam_spec_witness :
  let p := mkRpcFilterParam (Some (mkRange "1" "20"))
             [("ab"%string, None);
              ("cd"%string, Some (mkRange "1" "20"))] [] None None in
  exists fp,
    toFilterParam exampleStringToUint64 exampleHexToAddress p = inl fp
    /\ snapshotRange fp = Some (mkHeightRange 1 20)
    /\ is_Some (addrRange fp !! String.list_byte_of_string "ab").
Proof.
  intros p.
  destruct (proj2 (proj1 (toFilterParam_spec exampleStringToUint64
                            exampleHexToAddress p)))
    as [fp Hfp].
  { split; [eexists; reflexivity|]. split; [discriminate|].
    repeat constructor; cbn; eexists; reflexivity. }
  exists fp. split; [exact Hfp|].
  destruct (proj2 (toFilterParam_spec exampleStringToUint64
                     exampleHexToAddress p) fp Hfp)
    as (Hsr & _ & _ & _ & Hkeys & _).
  split.
  - assert (E : toHeightRange exampleStringToUint64 (SnapshotRange p)
               = inl (Some (mkHeightRange 1 20)))
      by (vm_compute; reflexivity).
    rewrite E in Hsr. now injection Hsr as <-.
  - apply Hkeys. exists "ab"%string, None. split; [left; reflexivity|].
    reflexivity.
Defined.

End FiltersFacts.

(* ================================================================== *)
(* ================================================================== *)
(** ** The receiver *)

Module ReceiverFacts.
Import Ledger Receiver.

Section WithFilter.
Context {F : Type} {ops : Filter F}.

Lemma flush_feed {A : Type} (buffer feed : list A) :
  fold_left (fun feed block => feed ++ [block]) buffer feed = feed ++ buffer.
Proof.
  revert feed. induction buffer as [|b buffer IH]; intros feed; cbn.
  - now rewrite app_nil_r.
  - now rewrite IH, <- app_assoc.
Qed.


(** *** Buffers and broadcasts *)

Lemma consistent_new (v : option Verifier) (f : F) :
  consistent (newReceiver v f).
Proof.
  unfold consistent, newReceiver; cbn.
  split; [now left|]. split; [discriminate|]. split; intros ? [].
Qed.

Lemma consistent_ReceiveNewSnapshotBlock (s : receiver F)
  (block : option SnapshotBlock) :
  consistent s -> consistent (ReceiveNewSnapshotBlock s block).
Proof.
  intros Hs.
  destruct block as [block|]; [|exact Hs].
  unfold ReceiveNewSnapshotBlock.
  destruct (has (filter s) (SbHash block)); [exact Hs|].
  destruct (negb (verifiesSb s block)); [exact Hs|].
  destruct Hs as (Hready & Hempty & HS & HA).
  destruct s as [r bs ba fs fa v cs ca f]; cbn in *.
  destruct Hready as [-> | ->]; cbn.
  - split; [now left|]. split; [discriminate|]. split.
    + intros b Hb. apply in_app_or in Hb as [Hb|Hb].
      * destruct (HS b Hb); [now left|]. right. apply in_or_app. now left.
      * right. apply in_or_app. now right.
    + exact HA.
  - split; [now right|]. split; [exact Hempty|]. split.
    + intros b Hb. apply in_app_or in Hb as [Hb|Hb].
      * destruct (HS b Hb); [|now right]. left. apply in_or_app. now left.
      * left. apply in_or_app. now right.
    + exact HA.
Qed.

Lemma consistent_ReceiveNewAccountBlock (s : receiver F)
  (block : option accountBlock) :
  consistent s -> consistent (ReceiveNewAccountBlock s block).
Proof.
  intros Hs.
  destruct block as [block|]; [|exact Hs].
  unfold ReceiveNewAccountBlock.
  destruct (has (filter s) (AbHash block)); [exact Hs|].
  destruct (negb (verifiesAb s block)); [exact Hs|].
  destruct Hs as (Hready & Hempty & HS & HA).
  destruct s as [r bs ba fs fa v cs ca f]; cbn in *.
  destruct Hready as [-> | ->]; cbn.
  - split; [now left|]. split; [discriminate|]. split; [exact HS|].
    intros b Hb. apply in_app_or in Hb as [Hb|Hb].
    + destruct (HA b Hb); [now left|]. right. apply in_or_app. now left.
    + right. apply in_or_app. now right.
  - split; [now right|]. split; [exact Hempty|]. split; [exact HS|].
    intros b Hb. apply in_app_or in Hb as [Hb|Hb].
    + destruct (HA b Hb); [|now right]. left. apply in_or_app. now left.
    + left. apply in_or_app. now right.
Qed.

Lemma consistent_ReceiveSnapshotBlock (s : receiver F)
  (block : option SnapshotBlock) :
  consistent s -> consistent (ReceiveSnapshotBlock s block).
Proof.
  intros Hs.
  destruct block as [block|]; [|exact Hs].
  unfold ReceiveSnapshotBlock.
  destruct (has (filter s) (SbHash block)); [exact Hs|].
  destruct (negb (verifiesSb s block)); [exact Hs|].
  destruct Hs as (Hready & Hempty & HS & HA).
  destruct s as [r bs ba fs fa v cs ca f]; cbn in *.
  split; [exact Hready|]. split; [exact Hempty|]. split; [|exact HA].
  intros b Hb. destruct (HS b Hb); [|now right].
  left. apply in_or_app. now left.
Qed.

Lemma consistent_ReceiveAccountBlock (s : receiver F)
  (block : option accountBlock) :
  consistent s -> consistent (ReceiveAccountBlock s block).
Proof.
  intros Hs.
  destruct block as [block|]; [|exact Hs].
  unfold ReceiveAccountBlock.
  destruct (has (filter s) (AbHash block)); [exact Hs|].
  destruct (negb (verifiesAb s block)); [exact Hs|].
  destruct Hs as (Hready & Hempty & HS & HA).
  destruct s as [r bs ba fs fa v cs ca f]; cbn in *.
  split; [exact Hready|]. split; [exact Hempty|]. split; [exact HS|].
  intros b Hb. destruct (HA b Hb); [|now right].
  left. apply in_or_app. now left.
Qed.

Lemma consistent_listen (s : receiver F) (st : SyncState) :
  consistent s -> consistent (listen s st).
Proof.
  intros Hs. unfold listen.
  destruct (isSyncing st).
  { destruct Hs as (Hready & Hempty & HS & HA).
    cbn. split; [now left|]. split; [discriminate|]. now split. }
  destruct (ready s =? 1); [exact Hs|].
  destruct (isSynced st); [|exact Hs].
  destruct Hs as (Hready & Hempty & HS & HA).
  unfold consistent; cbn. rewrite !flush_feed.
  split; [now right|]. split; [now split|]. split.
  - intros b Hb. left. apply in_or_app. now apply HS.
  - intros b Hb. left. apply in_or_app. now apply HA.
Qed.

Lemma fold_left_preserves {A S : Type} (P : S -> Prop) (f : S -> A -> S) :
  (forall s a, P s -> P (f s a)) ->
  forall l s, P s -> P (fold_left f l s).
Proof.
  intros Hstep l. induction l as [|a l IH]; intros s Hs; cbn; auto.
Qed.

Lemma consistent_step (s : receiver F) (c : call) :
  consistent s -> consistent (step s c).
Proof.
  intros Hs. destruct c; cbn [step].
  - now apply consistent_ReceiveNewSnapshotBlock.
  - now apply consistent_ReceiveNewAccountBlock.
  - now apply consistent_ReceiveSnapshotBlock.
  - now apply consistent_ReceiveAccountBlock.
  - unfold ReceiveSnapshotBlocks.
    apply (fold_left_preserves consistent); [|exact Hs].
    intros. now apply consistent_ReceiveSnapshotBlock.
  - unfold ReceiveAccountBlocks.
    apply (fold_left_preserves consistent); [|exact Hs].
    intros. now apply consistent_ReceiveAccountBlock.
  - now apply consistent_listen.
Qed.

(** X23.  Whatever calls are made on a new receiver, [ready] is 0 or 1,
    the two buffers are empty whenever it is 1, and every block handed to
    the broadcaster has been handed to its feed or waits in the buffer: once
    the receiver is ready, every broadcast block has reached the feed. *)
Theorem receiver_buffers_only_while_silent (v : option Verifier) (f : F)
  (calls : list call) :
  let s := run (newReceiver v f) calls in
  (ready s = 0 \/ ready s = 1)
  /\ (ready s = 1 -> newSBlocks s = [] /\ newABlocks s = [])
  /\ (forall block, In block (broadcastSnapshotBlocks s) ->
                    In block (sFeed s) \/ In block (newSBlocks s))
  /\ (forall block, In block (broadcastAccountBlocks s) ->
                    In block (aFeed s) \/ In block (newABlocks s)).
Proof.
  intros s. change (consistent s). subst s. unfold run.
  apply (fold_left_preserves consistent); [|apply consistent_new].
  intros. now apply consistent_step.
Qed.

(** *** Buffering does not reorder *)




(** *** No hash twice *)

Section Lawful.
Hypothesis has_done : forall (f : F) (h : Hash), has (done f h) h = true.
Hypothesis has_kept :
  forall (f : F) (h h' : Hash), has f h = true -> has (done f h') h = true.

Lemma tracked_done (f : F) (h : Hash) (l : list Hash) :
  tracked f l -> tracked (done f h) l.
Proof. intros [Hnd Hm]. split; [exact Hnd|]. intros x Hx. auto. Qed.

Lemma tracked_perm (f : F) (l l' : list Hash) :
  l ≡ₚ l' -> tracked f l -> tracked f l'.
Proof.
  intros Hp [Hnd Hm]. split.
  - now rewrite <- Hp.
  - intros x Hx. apply Hm. apply list_elem_of_In. rewrite Hp.
    now apply list_elem_of_In.
Qed.

Lemma tracked_snoc (f : F) (h : Hash) (l : list Hash) :
  tracked f l -> has f h = false -> tracked (done f h) (l ++ [h]).
Proof.
  intros [Hnd Hm] Hnew. split.
  - apply NoDup_app. split; [exact Hnd|]. split; [|apply NoDup_singleton].
    intros x Hx Hx'. apply list_elem_of_singleton in Hx' as ->.
    apply list_elem_of_In, Hm in Hx. congruence.
  - intros x Hx. apply in_app_or in Hx as [Hx|[<-|[]]]; auto.
Qed.

Lemma tracked_store (f : F) (h : Hash) (l k : list Hash) :
  tracked f (l ++ k) -> has f h = false ->
  tracked (done f h) (l ++ (k ++ [h])).
Proof. rewrite app_assoc. apply tracked_snoc. Qed.

Lemma tracked_notify (f : F) (h : Hash) (l k : list Hash) :
  tracked f (l ++ k) -> has f h = false ->
  tracked (done f h) ((l ++ [h]) ++ k).
Proof.
  intros Ht Hnew. apply (tracked_perm _ ((l ++ k) ++ [h])).
  - rewrite <- !app_assoc. apply Permutation_app_head, Permutation_app_comm.
  - now apply tracked_snoc.
Qed.

Lemma distinct_new (v : option Verifier) (f : F) :
  distinct (newReceiver v f).
Proof.
  unfold distinct, tracked; cbn.
  repeat split; try apply NoDup_nil_2; intros ? [].
Qed.

Lemma distinct_ReceiveNewSnapshotBlock (s : receiver F)
  (block : option SnapshotBlock) :
  distinct s -> distinct (ReceiveNewSnapshotBlock s block).
Proof.
  intros Hs. destruct block as [block|]; [|exact Hs].
  unfold ReceiveNewSnapshotBlock.
  destruct (has (filter s) (SbHash block)) eqn:Hnew; [exact Hs|].
  destruct (negb (verifiesSb s block)); [exact Hs|].
  destruct Hs as (HS & HA & HBS & HBA).
  destruct s as [r bs ba fs fa v cs ca f]; cbn in *.
  destruct (r =? 0); unfold distinct; cbn; rewrite !map_app; cbn;
    (split; [|split; [|split]]);
    auto using tracked_done, tracked_snoc, tracked_store, tracked_notify.
Qed.

Lemma distinct_ReceiveNewAccountBlock (s : receiver F)
  (block : option accountBlock) :
  distinct s -> distinct (ReceiveNewAccountBlock s block).
Proof.
  intros Hs. destruct block as [block|]; [|exact Hs].
  unfold ReceiveNewAccountBlock.
  destruct (has (filter s) (AbHash block)) eqn:Hnew; [exact Hs|].
  destruct (negb (verifiesAb s block)); [exact Hs|].
  destruct Hs as (HS & HA & HBS & HBA).
  destruct s as [r bs ba fs fa v cs ca f]; cbn in *.
  destruct (r =? 0); unfold distinct; cbn; rewrite !map_app; cbn;
    (split; [|split; [|split]]);
    auto using tracked_done, tracked_snoc, tracked_store, tracked_notify.
Qed.

Lemma distinct_ReceiveSnapshotBlock (s : receiver F)
  (block : option SnapshotBlock) :
  distinct s -> distinct (ReceiveSnapshotBlock s block).
Proof.
  intros Hs. destruct block as [block|]; [|exact Hs].
  unfold ReceiveSnapshotBlock.
  destruct (has (filter s) (SbHash block)) eqn:Hnew; [exact Hs|].
  destruct (negb (verifiesSb s block)); [exact Hs|].
  destruct Hs as (HS & HA & HBS & HBA).
  destruct s as [r bs ba fs fa v cs ca f]; cbn in *.
  unfold distinct; cbn; rewrite !map_app; cbn;
    (split; [|split; [|split]]);
    auto using tracked_done, tracked_snoc, tracked_store, tracked_notify.
Qed.

Lemma distinct_ReceiveAccountBlock (s : receiver F)
  (block : option accountBlock) :
  distinct s -> distinct (ReceiveAccountBlock s block).
Proof.
  intros Hs. destruct block as [block|]; [|exact Hs].
  unfold ReceiveAccountBlock.
  destruct (has (filter s) (AbHash block)) eqn:Hnew; [exact Hs|].
  destruct (negb (verifiesAb s block)); [exact Hs|].
  destruct Hs as (HS & HA & HBS & HBA).
  destruct s as [r bs ba fs fa v cs ca f]; cbn in *.
  unfold distinct; cbn; rewrite !map_app; cbn;
    (split; [|split; [|split]]);
    auto using tracked_done, tracked_snoc, tracked_store, tracked_notify.
Qed.

Lemma distinct_listen (s : receiver F) (st : SyncState) :
  distinct s -> distinct (listen s st).
Proof.
  intros Hs. unfold listen.
  destruct (isSyncing st); [exact Hs|].
  destruct (ready s =? 1); [exact Hs|].
  destruct (isSynced st); [|exact Hs].
  destruct Hs as (HS & HA & HBS & HBA).
  unfold distinct; cbn. rewrite !flush_feed, !map_app, !app_nil_r.
  auto.
Qed.

Lemma distinct_step (s : receiver F) (c : call) :
  distinct s -> distinct (step s c).
Proof.
  intros Hs. destruct c; cbn [step].
  - now apply distinct_ReceiveNewSnapshotBlock.
  - now apply distinct_ReceiveNewAccountBlock.
  - now apply distinct_ReceiveSnapshotBlock.
  - now apply distinct_ReceiveAccountBlock.
  - unfold ReceiveSnapshotBlocks.
    apply (fold_left_preserves distinct); [|exact Hs].
    intros. now apply distinct_ReceiveSnapshotBlock.
  - unfold ReceiveAccountBlocks.
    apply (fold_left_preserves distinct); [|exact Hs].
    intros. now apply distinct_ReceiveAccountBlock.
  - now apply distinct_listen.
Qed.

Lemma distinct_run (v : option Verifier) (f : F) (calls : list call) :
  distinct (run (newReceiver v f) calls).
Proof.
  unfold run. apply (fold_left_preserves distinct); [|apply distinct_new].
  intros. now apply distinct_step.
Qed.

End Lawful.

(** X25.  With a filter that has every hash it was told is done, and keeps
    having it, no call sequence on a new receiver hands two blocks of the
    same hash to a feed or to the broadcaster, and every hash handed over is
    on record in the filter. *)
Theorem receiver_never_repeats_a_hash (v : option Verifier) (f : F)
  (calls : list call) :
  (forall (f : F) (h : Hash), has (done f h) h = true) ->
  (forall (f : F) (h h' : Hash),
      has f h = true -> has (done f h') h = true) ->
  let s := run (newReceiver v f) calls in
  NoDup (map SbHash (sFeed s))
  /\ NoDup (map AbHash (aFeed s))
  /\ NoDup (map SbHash (broadcastSnapshotBlocks s))
  /\ NoDup (map AbHash (broadcastAccountBlocks s))
  /\ (forall block, In block (sFeed s) ->
                    has (filter s) (SbHash block) = true)
  /\ (forall block, In block (aFeed s) ->
                    has (filter s) (AbHash block) = true).
Proof.
  intros Hdone Hkept s.
  destruct (distinct_run Hdone Hkept v f calls)
    as ([HS HSm] & [HA HAm] & [HBS _] & [HBA _]).
  fold s in HS, HSm, HA, HAm, HBS, HBA.
  apply NoDup_app in HS as (HS & _ & _).
  apply NoDup_app in HA as (HA & _ & _).
  repeat split; try assumption.
  - intros block Hb. apply HSm. apply in_or_app. left. now apply in_map.
  - intros block Hb. apply HAm. apply in_or_app. left. now apply in_map.
Qed.

End WithFilter.

(** X25 on a block that arrives twice and again after the sync. *)
Lemma receiver_never_repeats_a_hash_witness :
  let b := mkSnapshotBlock [Byte.x01] 1 in
  let calls := [CallReceiveNewSnapshotBlock (Some b);
                CallReceiveSnapshotBlock (Some b);
                CallListen Syncdone;
                CallReceiveNewSnapshotBlock (Some b)] in
  let s := run (newReceiver None (∅ : gset Hash)) calls in
  NoDup (map SbHash (sFeed s)) /\ sFeed s = [b]
  /\ sFeed (run (ops := forgetfulFilter) (newReceiver None tt) calls)
     = [b; b; b].
Proof.
  intros b calls s.
  assert (Hdone : forall (f : gset Hash) (h : Hash),
             has (done f h) h = true).
  { intros f h. cbn. apply bool_decide_eq_true. set_solver. }
  assert (Hkept : forall (f : gset Hash) (h h' : Hash),
             has f h = true -> has (done f h') h = true).
  { intros f h h'. cbn. rewrite !bool_decide_eq_true. set_solver. }
  pose proof (receiver_never_repeats_a_hash None (∅ : gset Hash) calls
                Hdone Hkept) as H.
  split; [exact (proj1 H)|]. split; vm_compute; reflexivity.
Defined.


End ReceiverFacts.
